(** * Scheduler core of the xv6 MLFQ + stride kernel (mlfq.c, proc.c)

    Shallow embedding of the scheduler data structures and operations of
    [mlfq.c] (the revision with per-process threads and [runnable]) and of
    the process/thread operations of [proc.c].

    Modelling conventions.
    - Pointers into [ptable.proc] are indices ([nat]) into the process table;
      the stride queue holds [PNULL], the aggregate sentinel [MLFQ_PROC]
      ([(struct proc* )-1]) or [PROC i].
    - C [int] arithmetic is 32-bit two's complement ([wrap32]); [uint]
      arithmetic is modulo 2^32 ([u32]).
    - The [float] pass values are modelled as rationals [Q]; comparisons,
      assignments and the sentinel [-1] are exact in both. Rounding of
      [MAXTICKET / ticket[i]] is not modelled; the sample runs below only
      use integral strides, which [float] represents exactly.
    - The tunable constants ([NPROC], [NTHREAD], [MAXTICKET], [MAXSTRIDE],
      [MAXPASS], [SCALEPASS]) come from headers that are not part of the
      sources; they are collected in a [config] record and every operation
      is parameterised by it. *)

From Stdlib Require Import ZArith QArith Lia Lqa.
From stdpp Require Import base list.

Open Scope Z_scope.

(** ** Tunable constants *)

Record config := mkConfig {
  nproc : nat;        (* NPROC *)
  nthread : nat;      (* NTHREAD *)
  maxticket : Z;      (* MAXTICKET *)
  maxstride : Z;      (* MAXSTRIDE *)
  maxpass : Q;        (* MAXPASS *)
  scalepass : Q       (* SCALEPASS *)
}.

(** Number of MLFQ levels ([NMLFQ], K = 3). *)
Definition NMLFQ : nat := 3.

Definition MLFQ_NEXT : Z := 0.
Definition MLFQ_KEEP : Z := 1.
Definition MLFQ_SUCCESS : Z := 0.
Definition MLFQ_FULL_QUEUE : Z := 1.

(** ** Machine integers *)

Definition wrap32 (z : Z) : Z := ((z + 2 ^ 31) mod 2 ^ 32) - 2 ^ 31.
Definition u32 (z : Z) : Z := z mod 2 ^ 32.

(** ** Processes and threads ([proc.h]) *)

Inductive procstate := UNUSED | EMBRYO | SLEEPING | RUNNABLE | RUNNING | ZOMBIE.

Definition procstate_eqb (a b : procstate) : bool :=
  match a, b with
  | UNUSED, UNUSED | EMBRYO, EMBRYO | SLEEPING, SLEEPING
  | RUNNABLE, RUNNABLE | RUNNING, RUNNING | ZOMBIE, ZOMBIE => true
  | _, _ => false
  end.

Record thread := mkThread {
  tid : Z;
  tstate : procstate;
  chan : Z;
  kstack : Z;
  retval : Z
}.

Record mlfqinfo := mkInfo {
  level : Z;
  index : Z;
  elapsed : Z;
  start : Z
}.

Record proc := mkProc {
  pid : Z;
  state : procstate;
  killed : Z;
  tidx : Z;
  threads : list thread;
  kstacks : list Z;
  ustacks : list Z;
  mlfq : mlfqinfo;
  parent : option nat
}.

Definition set_mlfq (p : proc) (m : mlfqinfo) : proc :=
  mkProc (pid p) (state p) (killed p) (tidx p) (threads p) (kstacks p)
    (ustacks p) m (parent p).

(** Entries of the stride queue. *)
Inductive pref := PNULL | MLFQ_PROC | PROC (n : nat).

(** [runnable]: index of the first RUNNABLE thread, or -1. *)
Fixpoint runnable_from (ts : list thread) (i : Z) : Z :=
  match ts with
  | [] => -1
  | t :: ts' => if procstate_eqb (tstate t) RUNNABLE then i else runnable_from ts' (i + 1)
  end.

Definition runnable (p : proc) : Z := runnable_from (threads p) 0.

(** [runnable( *queue[i])] on a stride-queue entry; a null or sentinel
    pointer is dereferenced, which faults ([None]). *)
Definition runnable_ref (procs : list proc) (r : pref) : option Z :=
  match r with
  | PROC n => runnable <$> procs !! n
  | _ => None
  end.

(** ** Stride state ([struct stride]) *)

Module Stride.
Record t := mk {
  quantum : Z;
  total : Z;
  pass : list Q;
  ticket : list Z;
  queue : list pref
}.
End Stride.

Definition Qltb (x y : Q) : bool := negb (Qle_bool y x).

Section Stride_ops.
Context (cfg : config).
Local Abbreviation NPROC := (nproc cfg).
Local Abbreviation MAXTICKET := (maxticket cfg).
Local Abbreviation MAXSTRIDE := (maxstride cfg).
Local Abbreviation MAXPASS := (maxpass cfg).
Local Abbreviation SCALEPASS := (scalepass cfg).

Definition stride_init : Stride.t :=
  Stride.mk 5 0
    (0%Q :: repeat (-1)%Q (NPROC - 1))
    (MAXTICKET :: repeat 0 (NPROC - 1))
    (MLFQ_PROC :: repeat PNULL (NPROC - 1)).

(** First null entry of the stride queue ([goto found]). *)
Fixpoint find_null (l : list pref) : option nat :=
  match l with
  | [] => None
  | PNULL :: _ => Some 0%nat
  | _ :: l' => S <$> find_null l'
  end.

(** The minimum-pass loop of [stride_append]: starts at [pass[0]] and
    skips the sentinel value [-1]. *)
Definition min_pass (ps : list Q) : Q :=
  match ps with
  | [] => 0%Q
  | p0 :: rest =>
      fold_left (fun m x => if negb (Qeq_bool x (-1)) && Qltb x m then x else m) rest p0
  end.

(** [stride_append]: returns (result, new stride state, updated process). *)
Definition stride_append (s : Stride.t) (pi : nat) (p : proc) (usage : Z)
  : Z * Stride.t * proc :=
  if (MAXSTRIDE <? wrap32 (Stride.total s + usage)) || (usage <=? 0) then (0, s, p)
  else
    match find_null (Stride.queue s) with
    | None => (0, s, p)
    | Some idx =>
        let p' := set_mlfq p (mkInfo (-1) (Z.of_nat idx) (elapsed (mlfq p)) (start (mlfq p))) in
        let q' := <[idx := PROC pi]> (Stride.queue s) in
        let total' := wrap32 (Stride.total s + usage) in
        let t0 := nth 0 (Stride.ticket s) 0 in
        let tk' := <[idx := usage]> (<[0%nat := wrap32 (t0 - usage)]> (Stride.ticket s)) in
        let minpass := min_pass (Stride.pass s) in
        (1, Stride.mk (Stride.quantum s) total' (<[idx := minpass]> (Stride.pass s)) tk' q', p')
    end.

Definition stride_delete (s : Stride.t) (p : proc) : Stride.t :=
  let idx := Z.to_nat (index (mlfq p)) in
  let usage := nth idx (Stride.ticket s) 0 in
  let t0 := nth 0 (Stride.ticket s) 0 in
  Stride.mk (Stride.quantum s) (wrap32 (Stride.total s - usage))
    (<[idx := (-1)%Q]> (Stride.pass s))
    (<[idx := 0]> (<[0%nat := wrap32 (t0 + usage)]> (Stride.ticket s)))
    (<[idx := PNULL]> (Stride.queue s)).

(** The rescaling loop of [stride_update]. ([Qred] only normalises the
    representation of a rational; it keeps long runs computable.) *)
Definition rescale (ps : list Q) : list Q :=
  map (fun x => if Qltb 0 x then Qred (x - (MAXPASS - SCALEPASS))%Q else x) ps.

(** [stride_update] on slot [idx] ([idx = 0] for [MLFQ_PROC], otherwise
    [p->mlfq.index]). *)
Definition stride_update_idx (s : Stride.t) (idx : nat) : Stride.t :=
  let v := Qred (nth idx (Stride.pass s) 0%Q + inject_Z MAXTICKET / inject_Z (nth idx (Stride.ticket s) 0%Z))%Q in
  let ps := <[idx := v]> (Stride.pass s) in
  Stride.mk (Stride.quantum s) (Stride.total s)
    (if Qltb MAXPASS v then rescale ps else ps)
    (Stride.ticket s) (Stride.queue s).

Definition stride_update (s : Stride.t) (procs : list proc) (r : pref) : Stride.t :=
  match r with
  | MLFQ_PROC => stride_update_idx s 0
  | PROC n =>
      match procs !! n with
      | Some p => stride_update_idx s (Z.to_nat (index (mlfq p)))
      | None => s
      end
  | PNULL => s
  end.

(** The selection loop of [stride_next]: [i] is the slot of the head of
    [ps]/[qs], [mi]/[mp] the current minimum slot and its pass, [ti] the
    thread index written to [*tidx]. [None] is a faulting dereference. *)
Fixpoint stride_next_loop (procs : list proc) (ps : list Q) (qs : list pref)
    (i mi : nat) (mp : Q) (ti : Z) : option (nat * Z) :=
  match ps, qs with
  | x :: ps', r :: qs' =>
      if negb (Qeq_bool x (-1)) && Qltb x mp then
        match runnable_ref procs r with
        | None => None
        | Some idx =>
            if idx =? -1 then stride_next_loop procs ps' qs' (S i) mi mp ti
            else stride_next_loop procs ps' qs' (S i) i x idx
        end
      else stride_next_loop procs ps' qs' (S i) mi mp ti
  | _, _ => Some (mi, ti)
  end.

(** [stride_next]: the chosen slot (the returned process is
    [queue[slot]]) and the value of [*tidx] on return. *)
Definition stride_next (s : Stride.t) (procs : list proc) (ti : Z) : option (nat * Z) :=
  match Stride.pass s, Stride.queue s with
  | p0 :: ps, _ :: qs => stride_next_loop procs ps qs 1 0 p0 ti
  | _, _ => Some (0%nat, ti)
  end.

End Stride_ops.

(** ** MLFQ state ([struct mlfq]) *)

Module Mlfq.
Record t := mk {
  quantum : list Z;
  expire : list Z;
  queue : list (list (option nat));
  iterstate : list nat;
  metasched : Stride.t
}.
End Mlfq.

Definition set_metasched (m : Mlfq.t) (s : Stride.t) : Mlfq.t :=
  Mlfq.mk (Mlfq.quantum m) (Mlfq.expire m) (Mlfq.queue m) (Mlfq.iterstate m) s.
Definition set_queue (m : Mlfq.t) (q : list (list (option nat))) : Mlfq.t :=
  Mlfq.mk (Mlfq.quantum m) (Mlfq.expire m) q (Mlfq.iterstate m) (Mlfq.metasched m).
Definition set_iterstate (m : Mlfq.t) (its : list nat) : Mlfq.t :=
  Mlfq.mk (Mlfq.quantum m) (Mlfq.expire m) (Mlfq.queue m) its (Mlfq.metasched m).

(** [queue[l][j] = x]. *)
Definition set2 (q : list (list (option nat))) (l j : nat) (x : option nat) :=
  <[l := <[j := x]> (nth l q [])]> q.

(** First empty entry of a level ([goto found] in [mlfq_append]). *)
Fixpoint find_none (l : list (option nat)) : option nat :=
  match l with
  | [] => None
  | None :: _ => Some 0%nat
  | Some _ :: l' => S <$> find_none l'
  end.

(** [runnable( *iter)] for a non-null MLFQ entry; entries always point into
    the process table. *)
Definition runnable_at (procs : list proc) (pi : nat) : Z :=
  match procs !! pi with Some p => runnable p | None => -1 end.

Section Mlfq_ops.
Context (cfg : config).
Local Abbreviation NPROC := (nproc cfg).

Definition mlfq_init : Mlfq.t :=
  Mlfq.mk [5; 10; 20] [20; 40; 200]
    (repeat (repeat None NPROC) NMLFQ)
    (repeat 0%nat NMLFQ)
    (stride_init cfg).

(** [mlfq_append]: (result, new MLFQ state, updated process). *)
Definition mlfq_append (m : Mlfq.t) (pi : nat) (p : proc) (lvl : nat) : Z * Mlfq.t * proc :=
  match find_none (nth lvl (Mlfq.queue m) []) with
  | None => (MLFQ_FULL_QUEUE, m, p)
  | Some j =>
      (MLFQ_SUCCESS, set_queue m (set2 (Mlfq.queue m) lvl j (Some pi)),
       set_mlfq p (mkInfo (Z.of_nat lvl) (Z.of_nat j) 0 (start (mlfq p))))
  end.

(** [mlfq_update m p ctime] for the process [p] at table index [pi]:
    [None] is [panic("mlfq: level elevation failed")]. *)
Definition mlfq_update (m : Mlfq.t) (pi : nat) (p : proc) (ctime : Z)
  : option (Z * Mlfq.t * proc) :=
  let lvl := level (mlfq p) in
  let idx := index (mlfq p) in
  if procstate_eqb (state p) ZOMBIE || negb (killed p =? 0) then Some (MLFQ_NEXT, m, p)
  else if lvl =? -1 then
    Some (MLFQ_NEXT, set_metasched m (stride_update_idx cfg (Mlfq.metasched m) (Z.to_nat idx)), p)
  else
    let m1 := set_metasched m (stride_update_idx cfg (Mlfq.metasched m) 0) in
    if (lvl + 1 <? Z.of_nat NMLFQ) && (nth (Z.to_nat lvl) (Mlfq.expire m1) 0 <=? elapsed (mlfq p)) then
      match mlfq_append m1 pi p (Z.to_nat (lvl + 1)) with
      | (r, m2, p2) =>
          if r =? MLFQ_SUCCESS then
            Some (MLFQ_NEXT, set_queue m2 (set2 (Mlfq.queue m2) (Z.to_nat lvl) (Z.to_nat idx) None), p2)
          else None
      end
    else if u32 (ctime - start (mlfq p)) <? nth (Z.to_nat lvl) (Mlfq.quantum m1) 0
    then Some (MLFQ_KEEP, m1, p)
    else Some (MLFQ_NEXT, m1, p).

(** The circular scan of one level in [mlfq_next]:
    [for (iter = iterstate[i] + 1; flag || iter != iterstate[i] + 1; ++iter)],
    with [stop = iterstate[i] + 1] and the wrap at [&queue[i][NPROC]].
    Returns (chosen entry, process index, thread index). *)
Fixpoint scan_level (procs : list proc) (q : list (option nat)) (stop it : nat)
    (flag : bool) (fuel : nat) : option (nat * nat * Z) :=
  match fuel with
  | O => None
  | S f =>
      if flag || negb (Nat.eqb it stop) then
        let it := if Nat.eqb it NPROC then 0%nat else it in
        match nth it q None with
        | Some pi =>
            let idx := runnable_at procs pi in
            if idx =? -1 then scan_level procs q stop (S it) false f
            else Some (it, pi, idx)
        | None => scan_level procs q stop (S it) false f
        end
      else None
  end.

Fixpoint mlfq_next_levels (procs : list proc) (m : Mlfq.t) (lv : list nat)
  : option (nat * Z) * Mlfq.t :=
  match lv with
  | [] => (None, m)
  | i :: lv' =>
      let c := nth i (Mlfq.iterstate m) 0%nat in
      match scan_level procs (nth i (Mlfq.queue m) []) (S c) (S c) true (S NPROC) with
      | Some (j, pi, idx) => (Some (pi, idx), set_iterstate m (<[i := j]> (Mlfq.iterstate m)))
      | None => mlfq_next_levels procs m lv'
      end
  end.

(** [mlfq_next]: the chosen process (table index) with its runnable thread
    index, or [None] ([return 0]), and the new MLFQ state. *)
Definition mlfq_next (m : Mlfq.t) (procs : list proc) : option (nat * Z) * Mlfq.t :=
  mlfq_next_levels procs m (seq 0 NMLFQ).

End Mlfq_ops.

(** ** Process table and kernel operations ([proc.c]) *)

Definition set_tstate (t : thread) (s : procstate) : thread :=
  mkThread (tid t) s (chan t) (kstack t) (retval t).
Definition set_tid (t : thread) (v : Z) : thread :=
  mkThread v (tstate t) (chan t) (kstack t) (retval t).
Definition set_kstack (t : thread) (v : Z) : thread :=
  mkThread (tid t) (tstate t) (chan t) v (retval t).
Definition set_retval (t : thread) (v : Z) : thread :=
  mkThread (tid t) (tstate t) (chan t) (kstack t) v.

Definition set_state (p : proc) (s : procstate) : proc :=
  mkProc (pid p) s (killed p) (tidx p) (threads p) (kstacks p) (ustacks p) (mlfq p) (parent p).
Definition set_pid (p : proc) (v : Z) : proc :=
  mkProc v (state p) (killed p) (tidx p) (threads p) (kstacks p) (ustacks p) (mlfq p) (parent p).
Definition set_tidx (p : proc) (v : Z) : proc :=
  mkProc (pid p) (state p) (killed p) v (threads p) (kstacks p) (ustacks p) (mlfq p) (parent p).
Definition set_threads (p : proc) (ts : list thread) : proc :=
  mkProc (pid p) (state p) (killed p) (tidx p) ts (kstacks p) (ustacks p) (mlfq p) (parent p).
Definition set_kstacks (p : proc) (v : list Z) : proc :=
  mkProc (pid p) (state p) (killed p) (tidx p) (threads p) v (ustacks p) (mlfq p) (parent p).
Definition set_ustacks (p : proc) (v : list Z) : proc :=
  mkProc (pid p) (state p) (killed p) (tidx p) (threads p) (kstacks p) v (mlfq p) (parent p).
Definition set_parent (p : proc) (v : option nat) : proc :=
  mkProc (pid p) (state p) (killed p) (tidx p) (threads p) (kstacks p) (ustacks p) (mlfq p) v.

Definition dummy_thread : thread := mkThread 0 UNUSED 0 0 0.

(** [p->threads[i] = f(p->threads[i])]. *)
Definition upd_thread (p : proc) (i : nat) (f : thread -> thread) : proc :=
  set_threads p (<[i := f (nth i (threads p) dummy_thread)]> (threads p)).

(** The kernel state: [ptable.proc], the global [mlfq], [nextpid],
    [nexttid]. *)
Record kstate := mkK {
  ptable : list proc;
  kmlfq : Mlfq.t;
  nextpid : Z;
  nexttid : Z
}.

Definition set_proc (k : kstate) (i : nat) (p : proc) : kstate :=
  mkK (<[i := p]> (ptable k)) (kmlfq k) (nextpid k) (nexttid k).

Fixpoint find_unused (ps : list proc) : option nat :=
  match ps with
  | [] => None
  | p :: ps' => if procstate_eqb (state p) UNUSED then Some 0%nat else S <$> find_unused ps'
  end.

Definition dummy_proc : proc :=
  mkProc 0 UNUSED 0 0 [] [] [] (mkInfo 0 0 0 0) None.

Section Proc_ops.
Context (cfg : config).

(** [allocproc]; [ka] is the value returned by [kalloc()] (0 when out of
    memory). The trap frame and context written into the new stack are
    stack memory and are not modelled. *)
Definition allocproc (k : kstate) (ka : Z) : kstate * option nat :=
  match find_unused (ptable k) with
  | None => (k, None)
  | Some i =>
      let p := nth i (ptable k) dummy_proc in
      let p1 := upd_thread (set_tidx (set_pid (set_state p EMBRYO) (nextpid k)) 0) 0
                  (fun t => set_tid (set_tstate t EMBRYO) (nexttid k)) in
      let '(_, m1, p2) := mlfq_append (kmlfq k) i p1 0 in
      let p3 := set_ustacks (set_kstacks p2 (map (fun _ => 0) (kstacks p2)))
                  (map (fun _ => 0) (ustacks p2)) in
      let p4 := set_kstacks p3 (<[0%nat := ka]> (kstacks p3)) in
      let k1 := mkK (ptable k) m1 (wrap32 (nextpid k + 1)) (wrap32 (nexttid k + 1)) in
      if ka =? 0 then
        (set_proc k1 i (upd_thread (set_state p4 UNUSED) 0 (fun t => set_tstate t UNUSED)), None)
      else
        (set_proc k1 i (upd_thread p4 0 (fun t => set_kstack t ka)), Some i)
  end.

(** [fork] called by process [cur]; [ka] is [kalloc()]'s result and
    [pg] the page directory returned by [copyuvm] (0 on failure). Fields
    not in [proc] (trap frame, files, cwd, name, size) are not modelled. *)
Definition fork (k : kstate) (cur : nat) (ka pg : Z) : Z * kstate :=
  match allocproc k ka with
  | (k1, None) => (-1, k1)
  | (k1, Some ni) =>
      let np := nth ni (ptable k1) dummy_proc in
      if pg =? 0 then
        let np1 := set_state (set_kstacks (upd_thread np 0
                     (fun t => set_tstate (set_kstack t 0) UNUSED)) (<[0%nat := 0]> (kstacks np))) UNUSED in
        (-1, set_proc k1 ni np1)
      else
        let cp := nth cur (ptable k1) dummy_proc in
        let ct := Z.to_nat (tidx cp) in
        let us := ustacks cp in
        let us' := <[ct := nth 0 us 0]> (<[0%nat := nth ct us 0]> us) in
        let np1 := set_ustacks (set_tidx (set_parent np (Some cur)) 0) us' in
        let np2 := upd_thread (set_state np1 RUNNABLE) 0 (fun t => set_tstate t RUNNABLE) in
        (pid np, set_proc k1 ni np2)
  end.

End Proc_ops.

(** [wakeup1] (and [wakeup], which only brackets it with the lock). *)
Definition wake_thread (c : Z) (t : thread) : thread :=
  if procstate_eqb (tstate t) SLEEPING && (chan t =? c) then set_tstate t RUNNABLE else t.

Definition wakeup1 (c : Z) (k : kstate) : kstate :=
  mkK (map (fun p => if procstate_eqb (state p) RUNNABLE
                     then set_threads p (map (wake_thread c) (threads p)) else p) (ptable k))
      (kmlfq k) (nextpid k) (nexttid k).

Definition wakeup (c : Z) (k : kstate) : kstate := wakeup1 c k.

(** The search loop of [thread_join]. *)
Fixpoint find_tid_thread (ts : list thread) (v : Z) : option nat :=
  match ts with
  | [] => None
  | t :: ts' => if tid t =? v then Some 0%nat else S <$> find_tid_thread ts' v
  end.

Fixpoint find_tid (ps : list proc) (v : Z) : option (nat * nat) :=
  match ps with
  | [] => None
  | p :: ps' =>
      let rest := (fun '(i, j) => (S i, j)) <$> find_tid ps' v in
      if procstate_eqb (state p) RUNNABLE then
        match find_tid_thread (threads p) v with
        | Some j => Some (0%nat, j)
        | None => rest
        end
      else rest
  end.

(** Outcome of [thread_join]: [-1]; the join completed with the given
    return value; or the caller sleeps on channel [tid] and, when woken,
    completes with [join_free] on the found slot. *)
Inductive join_result := JoinFail | JoinDone (rv : Z) | JoinSleep (pi ti : nat).

Definition join_ret (r : join_result) : Z :=
  match r with JoinFail => -1 | _ => 0 end.

(** The code after the wait: release the thread slot. *)
Definition join_free (k : kstate) (pi ti : nat) : kstate :=
  let p := nth pi (ptable k) dummy_proc in
  set_proc k pi (upd_thread p ti (fun t => set_retval (set_tid (set_tstate (set_kstack t 0) UNUSED) 0) 0)).

Definition thread_join (k : kstate) (v : Z) : join_result * kstate :=
  match find_tid (ptable k) v with
  | None => (JoinFail, k)
  | Some (pi, ti) =>
      let t := nth ti (threads (nth pi (ptable k) dummy_proc)) dummy_thread in
      if procstate_eqb (tstate t) ZOMBIE then (JoinDone (retval t), join_free k pi ti)
      else (JoinSleep pi ti, k)
  end.

(** ** Specification-side readings used by the properties *)

Section Spec_readings.
Context (cfg : config).
Local Abbreviation NPROC := (nproc cfg).
Local Abbreviation MAXTICKET := (maxticket cfg).
Local Abbreviation MAXPASS := (maxpass cfg).
Local Abbreviation SCALEPASS := (scalepass cfg).

(** [k] is, among the slots satisfying [cand], one with the least pass,
    and the lowest such slot. *)
Definition least_pass_slot (cand : nat -> Prop) (s : Stride.t) (k : nat) : Prop :=
  cand k /\
  forall j, cand j -> forall xk xj,
    Stride.pass s !! k = Some xk -> Stride.pass s !! j = Some xj ->
    (xk <= xj)%Q /\ ((xj == xk)%Q -> (k <= j)%nat).

(** Slot 0 (the MLFQ aggregate) or a slot whose queue entry is non-null and
    holds a process with a runnable thread. *)
Definition active_runnable (procs : list proc) (s : Stride.t) (j : nat) : Prop :=
  j = 0%nat \/
  exists n p, Stride.queue s !! j = Some (PROC n) /\ procs !! n = Some p /\ runnable p <> -1.

(** Slot 0, or a slot [j > 0] whose pass is not the sentinel [-1] and whose
    process has a runnable thread. *)
Definition unmarked_runnable (procs : list proc) (s : Stride.t) (j : nat) : Prop :=
  j = 0%nat \/
  ((0 < j)%nat /\ exists x n p, Stride.pass s !! j = Some x /\ ~ (x == -1)%Q /\
     Stride.queue s !! j = Some (PROC n) /\ procs !! n = Some p /\ runnable p <> -1).

(** Sum of all tickets, and of the tickets of slots [i > 0]. *)
Definition sum_tickets (s : Stride.t) : Z := fold_right Z.add 0 (Stride.ticket s).
Definition sum_reserved (s : Stride.t) : Z := fold_right Z.add 0 (tail (Stride.ticket s)).

(** The rescale reading: once the serviced slot's pass exceeds [MAXPASS],
    every slot whose queue entry is non-null ends up exactly
    [MAXPASS - SCALEPASS] below its value after the increment. *)
Definition rescale_exact (s : Stride.t) (idx : nat) : Prop :=
  let v := (nth idx (Stride.pass s) 0%Q + inject_Z MAXTICKET / inject_Z (nth idx (Stride.ticket s) 0%Z))%Q in
  (MAXPASS < v)%Q ->
  forall j r x y, Stride.queue s !! j = Some r -> r <> PNULL ->
    <[idx := v]> (Stride.pass s) !! j = Some x ->
    Stride.pass (stride_update_idx cfg s idx) !! j = Some y ->
    (y == x - (MAXPASS - SCALEPASS))%Q.

(** Circular order of the [NPROC] entries of a level starting at [c]. *)
Definition rot_order (c : nat) : list nat := seq c (NPROC - c) ++ seq 0 c.

(** The first entry, in the order [l], holding a process with a runnable
    thread: (entry, process index, thread index). *)
Fixpoint first_runnable (procs : list proc) (q : list (option nat)) (l : list nat)
  : option (nat * nat * Z) :=
  match l with
  | [] => None
  | j :: l' =>
      match nth j q None with
      | Some pi =>
          if runnable_at procs pi =? -1 then first_runnable procs q l'
          else Some (j, pi, runnable_at procs pi)
      | None => first_runnable procs q l'
      end
  end.

(** Selection read with the cursor as the first entry examined, advanced
    past the chosen entry. *)
Fixpoint next_from_cursor (procs : list proc) (m : Mlfq.t) (lv : list nat)
  : option (nat * Z) * Mlfq.t :=
  match lv with
  | [] => (None, m)
  | i :: lv' =>
      let c := nth i (Mlfq.iterstate m) 0%nat in
      match first_runnable procs (nth i (Mlfq.queue m) []) (rot_order c) with
      | Some (j, pi, idx) =>
          (Some (pi, idx), set_iterstate m (<[i := ((S j) mod NPROC)%nat]> (Mlfq.iterstate m)))
      | None => next_from_cursor procs m lv'
      end
  end.

(** Selection read with the cursor as the entry chosen last: the scan
    starts just after it and the cursor is set to the chosen entry. *)
Fixpoint next_after_cursor (procs : list proc) (m : Mlfq.t) (lv : list nat)
  : option (nat * Z) * Mlfq.t :=
  match lv with
  | [] => (None, m)
  | i :: lv' =>
      let c := nth i (Mlfq.iterstate m) 0%nat in
      match first_runnable procs (nth i (Mlfq.queue m) []) (rot_order (S c)) with
      | Some (j, pi, idx) => (Some (pi, idx), set_iterstate m (<[i := j]> (Mlfq.iterstate m)))
      | None => next_after_cursor procs m lv'
      end
  end.

End Spec_readings.

(** Entry [j] of level [l] of the MLFQ. *)
Definition slot (m : Mlfq.t) (l j : nat) : option nat :=
  match nth l (Mlfq.queue m) [] !! j with Some (Some pi) => Some pi | _ => None end.

(** ** Sample configuration and states

    [NPROC = 64] as in xv6; [MAXTICKET = 100] and [MAXSTRIDE = 80] as in the
    spec's share scenario; [NTHREAD], [MAXPASS] and [SCALEPASS] are sample
    values. *)

Definition xv6_cfg : config := mkConfig 64 8 100 80 1000 100.

Definition fresh_thread : thread := mkThread 0 UNUSED 0 0 0.

(** A zero-initialised slot of the static [ptable]. *)
Definition fresh_proc (cfg : config) : proc :=
  mkProc 0 UNUSED 0 0 (repeat fresh_thread (nthread cfg)) (repeat 0 (nthread cfg))
    (repeat 0 (nthread cfg)) (mkInfo 0 0 0 0) None.

(** The kernel state after [pinit]. *)
Definition kinit (cfg : config) : kstate :=
  mkK (repeat (fresh_proc cfg) (nproc cfg)) (mlfq_init cfg) 1 1.

(** [userinit] on the scheduler fields: allocate and make RUNNABLE. *)
Definition userinit (k : kstate) (ka : Z) : kstate :=
  match allocproc k ka with
  | (k1, Some i) =>
      set_proc k1 i (upd_thread (set_state (nth i (ptable k1) dummy_proc) RUNNABLE) 0
                       (fun t => set_tstate t RUNNABLE))
  | (k1, None) => k1
  end.

(** A RUNNABLE process whose thread 0 is RUNNABLE, and one whose only
    thread sleeps. *)
Definition ready_proc : proc :=
  mkProc 3 RUNNABLE 0 0 [mkThread 5 RUNNABLE 0 4096 0; fresh_thread] [4096; 0] [0; 0]
    (mkInfo (-1) 1 0 0) None.
Definition asleep_proc : proc :=
  mkProc 4 RUNNABLE 0 0 [mkThread 6 SLEEPING 0 8192 0; fresh_thread] [8192; 0] [0; 0]
    (mkInfo 0 0 0 0) None.

(** Stride state after [stride_init] and [stride_append(p, 10)]. *)
Definition stride_ten : Stride.t :=
  let '(_, s, _) := stride_append xv6_cfg (stride_init xv6_cfg) 0 ready_proc 10 in s.

(** Then [stride_append(q, 2147483647)] (INT_MAX). *)
Definition stride_ten_intmax : Z * Stride.t :=
  let '(r, s, _) := stride_append xv6_cfg stride_ten 1 asleep_proc 2147483647 in (r, s).

(** After [stride_append(p, 50)] at time 0 ([pass[1] = 0]), the process
    sleeps and only the MLFQ aggregate is serviced: 500 updates of slot 0
    bring [pass[0]] to [MAXPASS]. *)
Definition stride_half : Stride.t :=
  let '(_, s, _) := stride_append xv6_cfg (stride_init xv6_cfg) 0 asleep_proc 50 in s.
Definition stride_at_maxpass : Stride.t :=
  Nat.iter 500 (fun s => stride_update_idx xv6_cfg s 0) stride_half.

(** 899 updates of slot 0 alone, [stride_append(p, 50)] (seeded with pass
    899), then 51 updates of slot 0 while [p] sleeps: the rescale brings
    [pass[1]] to exactly [899 - (MAXPASS - SCALEPASS) = -1]. *)
Definition stride_collided : Stride.t :=
  let s0 := Nat.iter 899 (fun s => stride_update_idx xv6_cfg s 0) (stride_init xv6_cfg) in
  let '(_, s1, _) := stride_append xv6_cfg s0 0 asleep_proc 50 in
  Nat.iter 51 (fun s => stride_update_idx xv6_cfg s 0) s1.

(** An MLFQ right after [mlfq_init] with processes 0 and 1 in the first two
    entries of level 0. *)
Definition mlfq_two : Mlfq.t :=
  let m := mlfq_init xv6_cfg in
  set_queue m (set2 (set2 (Mlfq.queue m) 0 0 (Some 0%nat)) 0 1 (Some 1%nat)).

(** Live thread ids are unique across the process table ([nexttid++]). *)
Definition tids_unique (ps : list proc) : Prop :=
  forall i1 j1 p1 t1 i2 j2 p2 t2,
    ps !! i1 = Some p1 -> threads p1 !! j1 = Some t1 ->
    ps !! i2 = Some p2 -> threads p2 !! j2 = Some t2 ->
    tid t1 <> 0 -> tid t1 = tid t2 -> i1 = i2 /\ j1 = j2.

(** A one-process table holding [ready_proc]. *)
Definition k_join : kstate := mkK [ready_proc] (mlfq_init xv6_cfg) 4 6.

(** A slot [j] of [ps]/[qs] that the loop of [stride_next] may select:
    unmarked pass and a process with a runnable thread. *)
Definition loop_cand (procs : list proc) (ps : list Q) (qs : list pref) (j : nat) (x : Q) : Prop :=
  ps !! j = Some x /\ ~ (x == -1)%Q /\
  exists n p, qs !! j = Some (PROC n) /\ procs !! n = Some p /\ runnable p <> -1.

(** The processes registered in a level, in entry order. *)
Fixpoint level_entries (l : list (option nat)) : list nat :=
  match l with
  | [] => []
  | Some x :: l' => x :: level_entries l'
  | None :: l' => level_entries l'
  end.

(** A RUNNABLE process registered at entry 0 of MLFQ level 0 that has used
    up the budget of the level ([elapsed = expire[0] = 20]), and the MLFQ
    holding it. *)
Definition mlfq_proc : proc :=
  mkProc 5 RUNNABLE 0 0 [mkThread 7 RUNNABLE 0 4096 0; fresh_thread] [4096; 0] [0; 0]
    (mkInfo 0 0 20 100) None.
Definition mlfq_one : Mlfq.t :=
  let m := mlfq_init xv6_cfg in
  set_queue m (set2 (Mlfq.queue m) 0 0 (Some 0%nat)).

(** * Further operations of proc.c and the scheduler *)
(** ** Further operations of [mlfq.c] *)

Section Mlfq_more.
Context (cfg : config).
Local Abbreviation NPROC := (nproc cfg).

(** [this->queue[level][index] = 0]; [None] is a write outside the array
    [queue[NMLFQ][NPROC]]. *)
Definition clear_entry (m : Mlfq.t) (lvl idx : Z) : option Mlfq.t :=
  if (0 <=? lvl) && (lvl <? Z.of_nat NMLFQ) && (0 <=? idx) && (idx <? Z.of_nat NPROC)
  then Some (set_queue m (set2 (Mlfq.queue m) (Z.to_nat lvl) (Z.to_nat idx) None))
  else None.

(** [mlfq_cpu_share m p usage] for the process [p] at table index [pi]:
    (result, new MLFQ state, updated process); [None] is the out-of-range
    write [queue[level][index] = 0]. *)
Definition mlfq_cpu_share (m : Mlfq.t) (pi : nat) (p : proc) (usage : Z)
  : option (Z * Mlfq.t * proc) :=
  let lvl := level (mlfq p) in
  let idx := index (mlfq p) in
  match stride_append cfg (Mlfq.metasched m) pi p usage with
  | (r, s', p') =>
      if r =? 0 then Some (-1, m, p)
      else (fun m' => (0, m', p')) <$> clear_entry (set_metasched m s') lvl idx
  end.

(** [mlfq_delete]; [None] is an out-of-range write. *)
Definition mlfq_delete (m : Mlfq.t) (p : proc) : option Mlfq.t :=
  if level (mlfq p) =? -1 then Some (set_metasched m (stride_delete (Mlfq.metasched m) p))
  else clear_entry m (level (mlfq p)) (index (mlfq p)).

(** The inner loop of [mlfq_boost]:
    [for (; top != &queue[0][NPROC]; ++top) if ( *top == 0) ...], run for
    the [NPROC - top] remaining entries; the free entry found, if any. *)
Fixpoint boost_top (q0 : list (option nat)) (top : nat) (fuel : nat) : option nat :=
  match fuel with
  | O => None
  | S f =>
      match nth top q0 None with
      | None => Some top
      | Some _ => boost_top q0 (S top) f
      end
  end.

(** The entries visited by [lower]: [queue[1][0 .. NPROC)], then
    [queue[2][0 .. NPROC)], up to [&queue[NMLFQ - 1][NPROC]]. *)
Definition boost_positions : list (nat * nat) :=
  flat_map (fun l => map (fun j => (l, j)) (seq 0 NPROC)) (seq 1 (NMLFQ - 1)).

(** The outer loop of [mlfq_boost] over the positions [pos], with the
    persistent cursor [top]; [None] is the panic. *)
Fixpoint boost_loop (procs : list proc) (q : list (list (option nat))) (top : nat)
    (pos : list (nat * nat)) : option (list proc * list (list (option nat))) :=
  match pos with
  | [] => Some (procs, q)
  | (l, j) :: pos' =>
      match nth j (nth l q []) None with
      | None => boost_loop procs q top pos'
      | Some pi =>
          match boost_top (nth 0 q []) top (NPROC - top) with
          | None => None
          | Some t =>
              let q1 := set2 (set2 q 0 t (Some pi)) l j None in
              let p := nth pi procs dummy_proc in
              let procs1 := <[pi := set_mlfq p (mkInfo 0 (Z.of_nat t) 0 (start (mlfq p)))]> procs in
              boost_loop procs1 q1 t pos'
          end
      end
  end.

(** [mlfq_boost]: the new process table and MLFQ state, or [None] for
    [panic("mlfq boost: ...")]. *)
Definition mlfq_boost (m : Mlfq.t) (procs : list proc) : option (list proc * Mlfq.t) :=
  (fun '(procs', q') => (procs', set_queue m q')) <$> boost_loop procs (Mlfq.queue m) 0 boost_positions.

(** Outcome of one selection in [mlfq_scheduler]: the process dispatched,
    nothing runnable ([p == 0]: the aggregate's pass is advanced and the
    loop breaks), or a faulting dereference. *)
Inductive pick := PickRun (pi : nat) | PickIdle | PickFault.

(** [c->proc = p; p->threads[p->tidx].state = RUNNING]. *)
Definition dispatch (procs : list proc) (pi : nat) : list proc :=
  let p := nth pi procs dummy_proc in
  <[pi := upd_thread p (Z.to_nat (tidx p)) (fun t => set_tstate t RUNNING)]> procs.

(** The selection and dispatch of one pass of the [do { } while (0)] body
    of [mlfq_scheduler], with [keep], [p] ([cur]) and [idx] as left by the
    previous pass: (outcome, MLFQ state, process table, [idx]). The switch
    itself and the accounting after it ([mlfq_update], [mlfq_boost]) are
    separate operations. *)
Definition sched_pick (m : Mlfq.t) (procs : list proc) (keep : Z) (cur : option nat) (idx : Z)
  : pick * Mlfq.t * list proc * Z :=
  let reselect :=
    if keep =? MLFQ_NEXT then Some true
    else match cur with
         | None => None
         | Some pi =>
             let p := nth pi procs dummy_proc in
             Some (negb (procstate_eqb (tstate (nth (Z.to_nat (tidx p)) (threads p) dummy_thread)) RUNNABLE))
         end in
  match reselect, cur with
  | None, _ | Some false, None => (PickFault, m, procs, idx)
  | Some false, Some pi => (PickRun pi, m, dispatch procs pi, idx)
  | Some true, _ =>
      match stride_next (Mlfq.metasched m) procs idx with
      | None => (PickFault, m, procs, idx)
      | Some (k, idx1) =>
          let '(chosen, m1, idx2) :=
            match nth k (Stride.queue (Mlfq.metasched m)) PNULL with
            | MLFQ_PROC =>
                match mlfq_next cfg m procs with
                | (Some (pi, i2), m1) => (Some pi, m1, i2)
                | (None, m1) => (None, m1, idx1)
                end
            | PROC pi => (Some pi, m, idx1)
            | PNULL => (None, m, idx1)
            end in
          match chosen with
          | None =>
              (PickIdle, set_metasched m1 (stride_update cfg (Mlfq.metasched m1) procs MLFQ_PROC), procs, idx2)
          | Some pi =>
              (PickRun pi, m1, dispatch (<[pi := set_tidx (nth pi procs dummy_proc) idx2]> procs) pi, idx2)
          end
      end
  end.

End Mlfq_more.

(** ** Further operations of [proc.c] *)

Definition set_killed (p : proc) (v : Z) : proc :=
  mkProc (pid p) (state p) v (tidx p) (threads p) (kstacks p) (ustacks p) (mlfq p) (parent p).

(** The search loop of [kill]. *)
Fixpoint find_pid (ps : list proc) (v : Z) : option nat :=
  match ps with
  | [] => None
  | p :: ps' => if pid p =? v then Some 0%nat else S <$> find_pid ps' v
  end.

Definition kill (k : kstate) (v : Z) : Z * kstate :=
  match find_pid (ptable k) v with
  | None => (-1, k)
  | Some i =>
      let p := nth i (ptable k) dummy_proc in
      (0, set_proc k i (set_threads (set_killed p 1)
            (map (fun t => if procstate_eqb (tstate t) SLEEPING then set_tstate t RUNNABLE else t)
                 (threads p))))
  end.

(** First UNUSED thread slot ([goto find] in [thread_create]). *)
Fixpoint find_unused_thread (ts : list thread) : option nat :=
  match ts with
  | [] => None
  | t :: ts' => if procstate_eqb (tstate t) UNUSED then Some 0%nat else S <$> find_unused_thread ts'
  end.

(** [thread_create] called by process [pi] whose [p->sz] is [sz]; [ka] is
    the value [kalloc()] returns and [au] the one [allocuvm] returns (0 on
    failure); each is used only when the code calls it. Returns (result,
    the value written to [*tid], new kernel state, new [p->sz]). The trap
    frame, context and user-stack words are memory contents and are not
    modelled. *)
Definition thread_create (k : kstate) (pi : nat) (sz ka au : Z) : Z * option Z * kstate * Z :=
  let p := nth pi (ptable k) dummy_proc in
  match find_unused_thread (threads p) with
  | None => (-1, None, k, sz)
  | Some ti =>
      let nt := nexttid k in
      let k1 := mkK (ptable k) (kmlfq k) (nextpid k) (wrap32 (nt + 1)) in
      let p1 := upd_thread p ti (fun t => set_tid t nt) in
      let p2 := if nth ti (kstacks p1) 0 =? 0 then set_kstacks p1 (<[ti := ka]> (kstacks p1)) else p1 in
      if nth ti (kstacks p2) 0 =? 0 then
        (-1, None, set_proc k1 pi (upd_thread p2 ti (fun t => set_tstate (set_tid t 0) UNUSED)), sz)
      else
        let p3 := upd_thread p2 ti (fun t => set_kstack t (nth ti (kstacks p2) 0)) in
        let fin := fun p4 sz' =>
          (0, Some nt, set_proc k1 pi (upd_thread p4 ti (fun t => set_tstate (set_retval t 0) RUNNABLE)), sz') in
        if negb (nth ti (ustacks p3) 0 =? 0) then fin p3 sz
        else if au =? 0 then
          (-1, None, set_proc k1 pi (upd_thread p3 ti (fun t => set_tstate (set_tid (set_kstack t 0) 0) UNUSED)), sz)
        else fin (set_ustacks p3 (<[ti := au]> (ustacks p3))) au
  end.

Section Proc_more.
Context (cfg : config).
Local Abbreviation NTHREAD := (nthread cfg).

(** One iteration of the freeing loop of [wait] on the thread at [off]. *)
Definition free_slot (p : proc) (off : nat) : proc :=
  let p1 := if negb (nth off (kstacks p) 0 =? 0)
            then set_ustacks (set_kstacks p (<[off := 0]> (kstacks p))) (<[off := 0]> (ustacks p))
            else p in
  upd_thread p1 off (fun t => set_tid (set_tstate (set_kstack t 0) UNUSED) 0).

Definition free_threads (p : proc) : proc := fold_left free_slot (seq 0 NTHREAD) p.

(** Outcome of [wait]: the pid of the reaped child, [-1], or the caller
    sleeps on its own [proc] until a child exits and scans again. *)
Inductive wait_result := WaitReaped (v : Z) | WaitFail | WaitSleep.

(** The first ZOMBIE child of [cur] in table order. *)
Fixpoint find_zombie_child (ps : list proc) (cur : nat) : option nat :=
  match ps with
  | [] => None
  | p :: ps' =>
      if (match parent p with Some c => Nat.eqb c cur | None => false end)
         && procstate_eqb (state p) ZOMBIE
      then Some 0%nat else S <$> find_zombie_child ps' cur
  end.

Definition has_child (ps : list proc) (cur : nat) : bool :=
  existsb (fun p => match parent p with Some c => Nat.eqb c cur | None => false end) ps.

(** One scan of [wait] by the process [cur]; [None] is an out-of-range
    write in [mlfq_delete]. *)
Definition wait (k : kstate) (cur : nat) : option (wait_result * kstate) :=
  match find_zombie_child (ptable k) cur with
  | Some i =>
      let p := nth i (ptable k) dummy_proc in
      let p1 := set_state (set_killed (set_parent (set_pid (free_threads p) 0) None) 0) UNUSED in
      (fun m' => (WaitReaped (pid p), mkK (<[i := p1]> (ptable k)) m' (nextpid k) (nexttid k)))
        <$> mlfq_delete cfg (kmlfq k) p1
  | None =>
      if negb (has_child (ptable k) cur) || negb (killed (nth cur (ptable k) dummy_proc) =? 0)
      then Some (WaitFail, k)
      else Some (WaitSleep, k)
  end.

(** Outcome of [next_thread]: switch to thread [j], keep running the
    current thread, or [sched()] (no runnable thread and the current one
    is not RUNNING). *)
Inductive nt_result := NTSwitch (j : nat) | NTStay | NTSched.

(** The search loop of [next_thread] from [iter = it], stopping at [t];
    [Some (Some j)]: thread [j] is RUNNABLE; [Some None]: back at [t];
    [None]: the loop has not ended within [fuel] iterations. *)
Fixpoint nt_scan (ts : list thread) (t it : nat) (fuel : nat) : option (option nat) :=
  match fuel with
  | O => None
  | S f =>
      let it := if Nat.eqb it NTHREAD then 0%nat else it in
      if Nat.eqb it t then Some None
      else if procstate_eqb (tstate (nth it ts dummy_thread)) RUNNABLE then Some (Some it)
      else nt_scan ts t (S it) f
  end.

Definition next_thread (p : proc) : option (nt_result * proc) :=
  let t := Z.to_nat (tidx p) in
  match nt_scan (threads p) t (S t) (S NTHREAD) with
  | None => None
  | Some None =>
      if procstate_eqb (tstate (nth t (threads p) dummy_thread)) RUNNING
      then Some (NTStay, p) else Some (NTSched, p)
  | Some (Some j) =>
      Some (NTSwitch j, set_tidx (upd_thread (upd_thread p t (fun x => set_tstate x RUNNABLE)) j
                                  (fun x => set_tstate x RUNNING)) (Z.of_nat j))
  end.

End Proc_more.

(** Every live thread id is below [nexttid]. *)
Definition tids_below (k : kstate) : Prop :=
  forall i j p t, ptable k !! i = Some p -> threads p !! j = Some t -> tid t < nexttid k.

(** A queue for [mlfq_boost]: [mlfq_one] with process 1 also registered at
    entry 5 of level 1. *)
Definition boost_sample : Mlfq.t := set_queue mlfq_one (set2 (Mlfq.queue mlfq_one) 1 5 (Some 1%nat)).

(** * Properties *)

(** ** General lemmas *)

Lemma procstate_eqb_true (a b : procstate) : procstate_eqb a b = true <-> a = b.
Proof. destruct a, b; simpl; split; congruence. Qed.

Lemma procstate_eqb_false (a b : procstate) : procstate_eqb a b = false <-> a <> b.
Proof. rewrite <- procstate_eqb_true. destruct (procstate_eqb a b); split; congruence. Qed.

Lemma lookup_map_list {A B} (f : A -> B) (l : list A) (i : nat) :
  map f l !! i = f <$> l !! i.
Proof. revert i. induction l as [|x l IH]; intros [|i]; simpl; auto. Qed.

Lemma Qltb_iff (x y : Q) : Qltb x y = true <-> (x < y)%Q.
Proof.
  unfold Qltb. rewrite negb_true_iff. split.
  - intros H. apply Qnot_le_lt. intros H'. apply Qle_bool_iff in H'. congruence.
  - intros H. destruct (Qle_bool y x) eqn:E; auto.
    apply Qle_bool_iff in E. exfalso. apply (Qlt_not_le x y); auto.
Qed.

Lemma Qltb_false (x y : Q) : Qltb x y = false <-> (y <= x)%Q.
Proof.
  split.
  - intros H. apply Qnot_lt_le. intros H'. apply Qltb_iff in H'. congruence.
  - intros H. destruct (Qltb x y) eqn:E; auto. apply Qltb_iff in E.
    exfalso. apply (Qlt_not_le x y); auto.
Qed.

Lemma Qeq_bool_false (x y : Q) : Qeq_bool x y = false <-> ~ (x == y)%Q.
Proof.
  split.
  - intros H H'. apply Qeq_bool_iff in H'. congruence.
  - intros H. destruct (Qeq_bool x y) eqn:E; auto. apply Qeq_bool_iff in E. tauto.
Qed.

(** ** wakeup *)

Lemma wake_thread_spec (c : Z) (t : thread) :
  (tstate t = SLEEPING /\ chan t = c -> wake_thread c t = set_tstate t RUNNABLE) /\
  (~ (tstate t = SLEEPING /\ chan t = c) -> wake_thread c t = t).
Proof.
  unfold wake_thread. split.
  - intros [H1 H2]. rewrite H1, H2, Z.eqb_refl. reflexivity.
  - intros H. destruct (procstate_eqb (tstate t) SLEEPING) eqn:E1; [|reflexivity].
    destruct (chan t =? c) eqn:E2; [|reflexivity].
    apply procstate_eqb_true in E1. apply Z.eqb_eq in E2. tauto.
Qed.

(** C8: [wakeup chan] sets to RUNNABLE exactly the SLEEPING threads whose
    [chan] is [c] and whose owning process is RUNNABLE; every other thread,
    every other field of every process, the MLFQ/stride state and the
    pid/tid counters are unchanged. *)
Theorem wakeup_exact (c : Z) (k : kstate) :
  kmlfq (wakeup c k) = kmlfq k /\ nextpid (wakeup c k) = nextpid k /\
  nexttid (wakeup c k) = nexttid k /\
  length (ptable (wakeup c k)) = length (ptable k) /\
  forall i p, ptable k !! i = Some p ->
    exists p', ptable (wakeup c k) !! i = Some p' /\
      pid p' = pid p /\ state p' = state p /\ killed p' = killed p /\
      tidx p' = tidx p /\ kstacks p' = kstacks p /\ ustacks p' = ustacks p /\
      mlfq p' = mlfq p /\ parent p' = parent p /\
      length (threads p') = length (threads p) /\
      forall j t, threads p !! j = Some t ->
        (tstate t = SLEEPING /\ chan t = c /\ state p = RUNNABLE ->
           threads p' !! j = Some (set_tstate t RUNNABLE)) /\
        (~ (tstate t = SLEEPING /\ chan t = c /\ state p = RUNNABLE) ->
           threads p' !! j = Some t).
Proof.
  unfold wakeup, wakeup1; simpl. split; [reflexivity|]. split; [reflexivity|].
  split; [reflexivity|]. split; [apply length_map|].
  intros i p Hp. rewrite lookup_map_list, Hp. simpl.
  destruct (procstate_eqb (state p) RUNNABLE) eqn:Hs.
  - apply procstate_eqb_true in Hs.
    eexists; split; [reflexivity|]. simpl.
    do 8 (split; [reflexivity|]). split; [apply length_map|].
    intros j t Ht. rewrite lookup_map_list, Ht. simpl.
    destruct (wake_thread_spec c t) as [W1 W2]. split.
    + intros (H1 & H2 & _). rewrite W1; auto.
    + intros H. rewrite W2; auto. intros [H1 H2]; apply H; auto.
  - apply procstate_eqb_false in Hs.
    eexists; split; [reflexivity|].
    do 9 (split; [reflexivity|]).
    intros j t Ht. split.
    + intros (_ & _ & H3); congruence.
    + intros _; exact Ht.
Qed.

(** ** thread_join *)

Lemma find_tid_thread_some (ts : list thread) (v : Z) (j : nat) :
  find_tid_thread ts v = Some j -> exists t, ts !! j = Some t /\ tid t = v.
Proof.
  revert j. induction ts as [|t ts IH]; intros j H; simpl in H; [discriminate|].
  destruct (tid t =? v) eqn:E.
  - injection H as <-. exists t. split; [reflexivity|]. apply Z.eqb_eq; auto.
  - destruct (find_tid_thread ts v) as [j'|] eqn:E'; simpl in H; [|discriminate].
    injection H as <-. apply IH; auto.
Qed.

Lemma find_tid_thread_none (ts : list thread) (v : Z) :
  find_tid_thread ts v = None -> forall j t, ts !! j = Some t -> tid t <> v.
Proof.
  induction ts as [|t ts IH]; intros H j t' Ht; simpl in *; [discriminate|].
  destruct (tid t =? v) eqn:E; [discriminate|].
  destruct (find_tid_thread ts v) eqn:E'; simpl in H; [discriminate|].
  destruct j as [|j]; simpl in Ht.
  - injection Ht as <-. apply Z.eqb_neq; auto.
  - eapply IH; eauto.
Qed.

Lemma find_tid_some (ps : list proc) (v : Z) (i j : nat) :
  find_tid ps v = Some (i, j) ->
  exists p t, ps !! i = Some p /\ state p = RUNNABLE /\ threads p !! j = Some t /\ tid t = v.
Proof.
  revert i. induction ps as [|p ps IH]; intros i H; simpl in H; [discriminate|].
  assert (Hrest : ((fun '(i, j) => (S i, j)) <$> find_tid ps v) = Some (i, j) ->
     exists p0 t, (p :: ps) !! i = Some p0 /\ state p0 = RUNNABLE /\
                  threads p0 !! j = Some t /\ tid t = v).
  { destruct (find_tid ps v) as [[i' j']|] eqn:E; simpl; intros Hr; [|discriminate].
    injection Hr as <- <-. destruct (IH i' eq_refl) as (p0 & t & ?). exists p0, t. auto. }
  destruct (procstate_eqb (state p) RUNNABLE) eqn:Hs; [|auto].
  destruct (find_tid_thread (threads p) v) as [j'|] eqn:Ht; [|auto].
  injection H as <- <-. apply procstate_eqb_true in Hs.
  destruct (find_tid_thread_some _ _ _ Ht) as (t & ? & ?). exists p, t. auto.
Qed.

Lemma find_tid_none (ps : list proc) (v : Z) :
  find_tid ps v = None ->
  forall i j p t, ps !! i = Some p -> state p = RUNNABLE -> threads p !! j = Some t -> tid t <> v.
Proof.
  induction ps as [|p ps IH]; intros H i j p' t Hp Hs Ht; simpl in *; [discriminate|].
  assert (Hr : find_tid ps v = None).
  { destruct (procstate_eqb (state p) RUNNABLE), (find_tid ps v);
      try destruct (find_tid_thread (threads p) v); simpl in H; try discriminate; auto. }
  destruct i as [|i]; simpl in Hp.
  - injection Hp as <-. rewrite Hs in H. simpl in H.
    destruct (find_tid_thread (threads p) v) eqn:E; [discriminate|].
    eapply find_tid_thread_none; eauto.
  - eapply IH; eauto.
Qed.

(** C10: [thread_join tid] looks the thread up in every RUNNABLE process of
    the table (the caller's identity is not consulted): a thread [t] of any
    RUNNABLE process is found at its own slot and joined (immediately when
    it is ZOMBIE, after sleeping on [tid] otherwise), while a thread whose
    owning process is not RUNNABLE is reported unknown: [-1], state
    unchanged. Thread ids are the unique non-zero ids of the table. *)
Theorem thread_join_scope (k : kstate) (pi ti : nat) (p : proc) (t : thread) :
  tids_unique (ptable k) ->
  ptable k !! pi = Some p -> threads p !! ti = Some t -> tid t <> 0 ->
  (state p = RUNNABLE ->
     thread_join k (tid t) =
       if procstate_eqb (tstate t) ZOMBIE then (JoinDone (retval t), join_free k pi ti)
       else (JoinSleep pi ti, k)) /\
  (state p <> RUNNABLE -> thread_join k (tid t) = (JoinFail, k) /\ join_ret JoinFail = -1).
Proof.
  intros Hu Hp Ht Hnz. unfold thread_join. split.
  - intros Hs. destruct (find_tid (ptable k) (tid t)) as [[i j]|] eqn:E.
    + destruct (find_tid_some _ _ _ _ E) as (p2 & t2 & Hp2 & Hs2 & Ht2 & Htid).
      destruct (Hu pi ti p t i j p2 t2 Hp Ht Hp2 Ht2 Hnz (eq_sym Htid)) as [<- <-].
      rewrite (nth_lookup_Some _ _ _ _ Hp), (nth_lookup_Some _ _ _ _ Ht). reflexivity.
    + exfalso. eapply (find_tid_none _ _ E pi ti p t); eauto.
  - intros Hs. destruct (find_tid (ptable k) (tid t)) as [[i j]|] eqn:E; [|auto].
    exfalso. destruct (find_tid_some _ _ _ _ E) as (p2 & t2 & Hp2 & Hs2 & Ht2 & Htid).
    destruct (Hu pi ti p t i j p2 t2 Hp Ht Hp2 Ht2 Hnz (eq_sym Htid)) as [<- <-].
    congruence.
Qed.

Lemma thread_join_scope_witness :
  tids_unique (ptable k_join) /\
  ptable k_join !! 0%nat = Some ready_proc /\
  threads ready_proc !! 0%nat = Some (mkThread 5 RUNNABLE 0 4096 0) /\
  tid (mkThread 5 RUNNABLE 0 4096 0) <> 0 /\
  thread_join k_join 5 = (JoinSleep 0 0, k_join).
Proof.
  assert (Hu : tids_unique (ptable k_join)).
  { intros i1 j1 p1 t1 i2 j2 p2 t2 H1 H2 H3 H4 Hnz Heq.
    destruct i1 as [|[|i1]]; simpl in H1; try discriminate; injection H1 as <-.
    destruct i2 as [|[|i2]]; simpl in H3; try discriminate; injection H3 as <-.
    destruct j1 as [|[|[|j1]]]; simpl in H2; try discriminate; injection H2 as <-;
    destruct j2 as [|[|[|j2]]]; simpl in H4; try discriminate; injection H4 as <-;
    simpl in *; try lia; auto. }
  split; [exact Hu|]. split; [reflexivity|]. split; [reflexivity|].
  split; [discriminate|].
  exact (proj1 (thread_join_scope k_join 0 0 ready_proc (mkThread 5 RUNNABLE 0 4096 0)
                  Hu eq_refl eq_refl ltac:(discriminate)) eq_refl).
Defined.

(** ** Admission control of [stride_append] *)

(** C3: the admission test [total + usage > MAXSTRIDE] is evaluated in
    32-bit [int] arithmetic. After [stride_append(p, 10)], a request of
    [usage = INT_MAX] overflows the sum to a negative value and is admitted
    (result 1) although [total + usage > MAXSTRIDE], the usage is positive
    and a free slot exists. *)
Theorem stride_append_intmax_admitted :
  fst stride_ten_intmax = 1 /\
  Stride.total stride_ten = 10 /\
  maxstride xv6_cfg < Stride.total stride_ten + 2147483647 /\
  Stride.queue stride_ten !! 2%nat = Some PNULL.
Proof. vm_compute. repeat split; reflexivity. Qed.

(** C5: in the same run the tickets still add up to [MAXTICKET], but the
    tickets of the slots [i > 0] add up to [10 + INT_MAX > MAXSTRIDE]. *)
Theorem stride_reserved_over_cap :
  sum_tickets (snd stride_ten_intmax) = maxticket xv6_cfg /\
  sum_reserved (snd stride_ten_intmax) = 10 + 2147483647 /\
  maxstride xv6_cfg < sum_reserved (snd stride_ten_intmax).
Proof. vm_compute. repeat split; reflexivity. Qed.

(** ** Rescaling in [stride_update] *)

(** C7: the rescale loop subtracts only from slots whose pass is positive.
    A process admitted at time 0 (pass 0) that sleeps while the MLFQ
    aggregate is serviced keeps pass 0 when [pass[0]] crosses [MAXPASS]:
    its slot is active but not reduced. *)
Theorem stride_update_rescale_skips_zero :
  Stride.queue stride_at_maxpass !! 1%nat = Some (PROC 0) /\
  Stride.pass stride_at_maxpass !! 0%nat = Some 1000%Q /\
  Stride.pass stride_at_maxpass !! 1%nat = Some 0%Q /\
  Stride.pass (stride_update_idx xv6_cfg stride_at_maxpass 0) !! 0%nat = Some 102%Q /\
  Stride.pass (stride_update_idx xv6_cfg stride_at_maxpass 0) !! 1%nat = Some 0%Q /\
  ~ rescale_exact xv6_cfg stride_at_maxpass 0.
Proof.
  split; [vm_compute; reflexivity|]. split; [vm_compute; reflexivity|].
  split; [vm_compute; reflexivity|]. split; [vm_compute; reflexivity|].
  split; [vm_compute; reflexivity|].
  unfold rescale_exact. cbv zeta. intros H.
  assert (Hv : (maxpass xv6_cfg <
     nth 0 (Stride.pass stride_at_maxpass) 0%Q +
     inject_Z (maxticket xv6_cfg) / inject_Z (nth 0 (Stride.ticket stride_at_maxpass) 0%Z))%Q)
    by (vm_compute; reflexivity).
  specialize (H Hv 1%nat (PROC 0) 0%Q 0%Q ltac:(vm_compute; reflexivity)
                ltac:(discriminate) ltac:(vm_compute; reflexivity) ltac:(vm_compute; reflexivity)).
  revert H. clear. intros H. unfold Qeq in H. simpl in H. discriminate.
Qed.

(** ** Roll-back of a failed process creation *)

(** C9: [allocproc] registers the new process in MLFQ level 0 before
    allocating its kernel stack; when [kalloc] fails the process and its
    thread go back to UNUSED but the level-0 entry stays, and the next
    [allocproc] registers the same slot a second time. [fork] failing in
    [copyuvm] leaves its child registered in the same way. *)
Theorem failed_creation_stays_registered :
  (let '(k1, r) := allocproc (kinit xv6_cfg) 0 in
   r = None /\ state (nth 0 (ptable k1) dummy_proc) = UNUSED /\
   tstate (nth 0 (threads (nth 0 (ptable k1) dummy_proc)) dummy_thread) = UNUSED /\
   slot (kmlfq k1) 0 0 = Some 0%nat /\
   (let '(k2, r2) := allocproc k1 4096 in
    r2 = Some 0%nat /\ slot (kmlfq k2) 0 0 = Some 0%nat /\ slot (kmlfq k2) 0 1 = Some 0%nat)) /\
  (let '(r, k3) := fork (userinit (kinit xv6_cfg) 4096) 0 8192 0 in
   r = -1 /\ state (nth 1 (ptable k3) dummy_proc) = UNUSED /\
   tstate (nth 0 (threads (nth 1 (ptable k3) dummy_proc)) dummy_thread) = UNUSED /\
   slot (kmlfq k3) 0 1 = Some 1%nat).
Proof. vm_compute. repeat split; reflexivity. Qed.

(** ** Selection of [stride_next] *)

Lemma stride_next_loop_spec (procs : list proc) (ps : list Q) :
  forall (qs : list pref) (i mi : nat) (mp : Q) (ti : Z),
  length ps = length qs ->
  (forall j x, ps !! j = Some x -> ~ (x == -1)%Q ->
     exists n p, qs !! j = Some (PROC n) /\ procs !! n = Some p) ->
  exists k ti', stride_next_loop procs ps qs i mi mp ti = Some (k, ti') /\
  ((k = mi /\ ti' = ti /\ forall j y, loop_cand procs ps qs j y -> (mp <= y)%Q) \/
   (exists x n p, (i <= k)%nat /\ loop_cand procs ps qs (k - i) x /\ (x < mp)%Q /\
      qs !! (k - i)%nat = Some (PROC n) /\ procs !! n = Some p /\ ti' = runnable p /\
      forall j y, loop_cand procs ps qs j y -> (x <= y)%Q /\ ((y == x)%Q -> (k - i <= j)%nat))).
Proof.
  induction ps as [|x ps IH]; intros qs i mi mp ti Hlen Hwf.
  - exists mi, ti. split; [reflexivity|]. left. split; [reflexivity|]. split; [reflexivity|].
    intros j y (Hy & _). discriminate.
  - destruct qs as [|r qs]; [discriminate|]. simpl in Hlen. injection Hlen as Hlen.
    assert (Hwf' : forall j x, ps !! j = Some x -> ~ (x == -1)%Q ->
              exists n p, qs !! j = Some (PROC n) /\ procs !! n = Some p)
      by (intros j y; apply (Hwf (S j) y)).
    assert (Hc0 : forall j y, loop_cand procs (x :: ps) (r :: qs) (S j) y <->
                              loop_cand procs ps qs j y) by (intros; reflexivity).
    simpl. destruct (negb (Qeq_bool x (-1)) && Qltb x mp) eqn:G.
    + apply andb_true_iff in G as [G1 G2]. apply negb_true_iff, Qeq_bool_false in G1.
      apply Qltb_iff in G2.
      destruct (Hwf 0%nat x eq_refl G1) as (n & p & Hr & Hp). simpl in Hr. injection Hr as ->.
      simpl. rewrite Hp. simpl.
      destruct (runnable p =? -1) eqn:R.
      * apply Z.eqb_eq in R.
        destruct (IH qs (S i) mi mp ti Hlen Hwf') as (k & ti' & Hrun & Hcase).
        exists k, ti'. split; [exact Hrun|].
        destruct Hcase as [(-> & -> & Hmin)|(x' & n' & p' & Hik & Hc & Hlt & Hq & Hp' & -> & Hmin)].
        -- left. split; [reflexivity|]. split; [reflexivity|].
           intros [|j] y Hy.
           ++ destruct Hy as (_ & _ & n2 & p2 & Hq2 & Hp2 & Hr2). simpl in Hq2.
              injection Hq2 as <-. congruence.
           ++ exact (Hmin j y Hy).
        -- right. exists x', n', p'.
           replace (k - i)%nat with (S (k - S i)) by lia.
           split; [lia|]. split; [exact Hc|]. split; [exact Hlt|]. split; [exact Hq|].
           split; [exact Hp'|]. split; [reflexivity|].
           intros [|j] y Hy.
           ++ destruct Hy as (_ & _ & n2 & p2 & Hq2 & Hp2 & Hr2). simpl in Hq2.
              injection Hq2 as <-. congruence.
           ++ destruct (Hmin j y Hy) as [H1 H2]. split; [exact H1|]. intros E. specialize (H2 E). lia.
      * apply Z.eqb_neq in R.
        destruct (IH qs (S i) i x (runnable p) Hlen Hwf') as (k & ti' & Hrun & Hcase).
        exists k, ti'. split; [exact Hrun|]. right.
        destruct Hcase as [(-> & -> & Hmin)|(x' & n' & p' & Hik & Hc & Hlt & Hq & Hp' & -> & Hmin)].
        -- exists x, n, p. rewrite Nat.sub_diag. split; [lia|].
           split; [split; [reflexivity|]; split; [exact G1|]; exists n, p; auto|].
           split; [exact G2|]. split; [reflexivity|]. split; [exact Hp|]. split; [reflexivity|].
           intros [|j] y Hy.
           ++ destruct Hy as (Hy & _). simpl in Hy. injection Hy as <-.
              split; [apply Qle_refl|]. intros _. lia.
           ++ split; [exact (Hmin j y Hy)|]. intros _. lia.
        -- exists x', n', p'.
           replace (k - i)%nat with (S (k - S i)) by lia.
           split; [lia|]. split; [exact Hc|]. split; [apply (Qlt_trans _ x); auto|].
           split; [exact Hq|]. split; [exact Hp'|]. split; [reflexivity|].
           intros [|j] y Hy.
           ++ destruct Hy as (Hy & _). simpl in Hy. injection Hy as <-.
              split; [apply Qlt_le_weak; exact Hlt|].
              intros E. exfalso. rewrite E in Hlt. apply (Qlt_irrefl x'); exact Hlt.
           ++ destruct (Hmin j y Hy) as [H1 H2]. split; [exact H1|]. intros E. specialize (H2 E). lia.
    + destruct (IH qs (S i) mi mp ti Hlen Hwf') as (k & ti' & Hrun & Hcase).
      exists k, ti'. split; [exact Hrun|].
      assert (Hx : forall y, loop_cand procs (x :: ps) (r :: qs) 0 y -> (mp <= y)%Q).
      { intros y (Hy & Hn & _). simpl in Hy. injection Hy as <-.
        apply andb_false_iff in G as [G|G].
        - apply negb_false_iff, Qeq_bool_iff in G. tauto.
        - apply Qltb_false in G. exact G. }
      destruct Hcase as [(-> & -> & Hmin)|(x' & n' & p' & Hik & Hc & Hlt & Hq & Hp' & -> & Hmin)].
      * left. split; [reflexivity|]. split; [reflexivity|].
        intros [|j] y Hy; [apply Hx, Hy|exact (Hmin j y Hy)].
      * right. exists x', n', p'.
        replace (k - i)%nat with (S (k - S i)) by lia.
        split; [lia|]. split; [exact Hc|]. split; [exact Hlt|]. split; [exact Hq|].
        split; [exact Hp'|]. split; [reflexivity|].
        intros [|j] y Hy.
        -- specialize (Hx y Hy). split; [apply Qlt_le_weak, (Qlt_le_trans _ mp); auto|].
           intros E. exfalso. rewrite E in Hx. apply (Qlt_not_le x' mp); auto.
        -- destruct (Hmin j y Hy) as [H1 H2]. split; [exact H1|]. intros E. specialize (H2 E). lia.
Qed.

(** The selection of [stride_next] as coded: when every slot [j > 0] whose
    pass is not the inactive sentinel [-1] holds a process of the table,
    [stride_next] returns the lowest-indexed slot of least pass among slot
    0 and the slots [j > 0] whose pass is not [-1] and whose process has a
    runnable thread; [*tidx] is that process's runnable thread when the
    slot is not 0, and is left unchanged when slot 0 (the MLFQ aggregate)
    is chosen. The test reads only the pass, so a live slot whose pass is
    exactly [-1] is never chosen. *)
Theorem stride_next_least (s : Stride.t) (procs : list proc) (ti : Z) :
  length (Stride.pass s) = length (Stride.queue s) ->
  (forall j x, (0 < j)%nat -> Stride.pass s !! j = Some x -> ~ (x == -1)%Q ->
     exists n p, Stride.queue s !! j = Some (PROC n) /\ procs !! n = Some p) ->
  exists k ti', stride_next s procs ti = Some (k, ti') /\
    least_pass_slot (unmarked_runnable procs s) s k /\
    (k = 0%nat -> ti' = ti) /\
    ((0 < k)%nat -> exists n p, Stride.queue s !! k = Some (PROC n) /\
                               procs !! n = Some p /\ ti' = runnable p).
Proof.
  intros Hlen Hwf. unfold stride_next, least_pass_slot, unmarked_runnable.
  destruct (Stride.pass s) as [|p0 ps] eqn:Eps.
  { exists 0%nat, ti. destruct (Stride.queue s); [|discriminate].
    split; [reflexivity|]. split; [split; [left; reflexivity|]|].
    - intros j _ xk xj Hk. discriminate.
    - split; [auto|]. intros H; lia. }
  destruct (Stride.queue s) as [|q0 qs] eqn:Eqs; [discriminate|].
  simpl in Hlen. injection Hlen as Hlen.
  destruct (stride_next_loop_spec procs ps qs 1 0 p0 ti Hlen
              (fun j x => Hwf (S j) x ltac:(lia)))
    as (k & ti' & Hrun & Hcase).
  exists k, ti'. split; [exact Hrun|].
  destruct Hcase as [(-> & -> & Hmin)|(x & n & p & Hik & Hc & Hlt & Hq & Hp & -> & Hmin)].
  - split; [split; [left; reflexivity|]|].
    + intros [|j] Hj xk xj Hk Hj'; simpl in Hk; injection Hk as <-.
      * simpl in Hj'. injection Hj' as <-. split; [apply Qle_refl|lia].
      * split; [|lia]. destruct Hj as [Hj|(_ & y & n & p & Hy & Hn & Hq & Hp & Hr)]; [discriminate|].
        simpl in Hy, Hj', Hq. rewrite Hj' in Hy. injection Hy as <-.
        apply (Hmin j xj). split; [exact Hj'|]. split; [exact Hn|]. exists n, p; auto.
    + split; [auto|]. intros H; lia.
  - destruct k as [|k]; [lia|]. rewrite Nat.sub_succ, Nat.sub_0_r in Hc, Hq, Hmin.
    destruct Hc as (Hx & Hxn & n2 & p2 & Hq2 & Hp2 & Hr2).
    split; [split|].
    + right. split; [lia|]. exists x, n2, p2. simpl. auto.
    + intros [|j] Hj xk xj Hk Hj'; simpl in Hk, Hj'; rewrite Hx in Hk; injection Hk as <-.
      * injection Hj' as <-. split; [apply Qlt_le_weak; exact Hlt|].
        intros E. exfalso. rewrite E in Hlt. apply (Qlt_irrefl x); exact Hlt.
      * destruct Hj as [Hj|(_ & y & n' & p' & Hy & Hn & Hq' & Hp' & Hr)]; [discriminate|].
        simpl in Hy, Hq'. rewrite Hj' in Hy. injection Hy as <-.
        destruct (Hmin j xj) as [H1 H2].
        { split; [exact Hj'|]. split; [exact Hn|]. exists n', p'; auto. }
        split; [exact H1|]. intros E. specialize (H2 E). lia.
    + split; [intros; lia|]. intros _. exists n, p. auto.
Qed.

Lemma stride_next_least_witness :
  length (Stride.pass stride_ten) = length (Stride.queue stride_ten) /\
  exists k ti', stride_next stride_ten [ready_proc] 7 = Some (k, ti') /\
    least_pass_slot (unmarked_runnable [ready_proc] stride_ten) stride_ten k.
Proof.
  assert (Hlen : length (Stride.pass stride_ten) = length (Stride.queue stride_ten))
    by (vm_compute; reflexivity).
  split; [exact Hlen|].
  assert (E : Stride.pass stride_ten = 0%Q :: 0%Q :: repeat (-1)%Q 62) by (vm_compute; reflexivity).
  destruct (stride_next_least stride_ten [ready_proc] 7 Hlen) as (k & ti' & H1 & H2 & _).
  - intros [|[|j]] x Hj Hx Hn; [lia| exists 0%nat, ready_proc; split; reflexivity|].
    exfalso. apply Hn. rewrite E in Hx.
    rewrite (repeat_spec 62 (-1)%Q x); [reflexivity|].
    apply list_elem_of_In, (list_elem_of_lookup_2 _ j). exact Hx.
  - exists k, ti'. split; assumption.
Defined.

(** Only slots whose pass is the sentinel [-1] after slot 0: the selection
    loop skips them all and [stride_next] returns slot 0. *)
Lemma stride_next_loop_marked (procs : list proc) (n : nat) :
  forall qs i mi mp ti, stride_next_loop procs (repeat (-1)%Q n) qs i mi mp ti = Some (mi, ti).
Proof.
  induction n as [|n IH]; intros qs i mi mp ti; [reflexivity|].
  destruct qs as [|r qs]; [reflexivity|]. cbn [repeat stride_next_loop]. apply IH.
Qed.

(** Servicing slot 0 keeps every other pass at the sentinel [-1]: the
    rescale only lowers positive passes. *)
Lemma stride_update_zero_marked (cfg : config) (s : Stride.t) (x : Q) (n : nat) :
  Stride.pass s = x :: repeat (-1)%Q n ->
  exists y, Stride.pass (stride_update_idx cfg s 0) = y :: repeat (-1)%Q n /\
            Stride.queue (stride_update_idx cfg s 0) = Stride.queue s.
Proof.
  intros E. unfold stride_update_idx. cbn [Stride.pass Stride.queue]. rewrite E. cbn [nth].
  destruct (Qltb _ _).
  - unfold rescale. cbn [list_insert insert map]. rewrite map_repeat. eexists. split; reflexivity.
  - eexists. split; reflexivity.
Qed.

Lemma stride_collided_iter (n : nat) :
  exists x, Stride.pass (Nat.iter n (fun s => stride_update_idx xv6_cfg s 0) stride_collided) =
              x :: repeat (-1)%Q 63 /\
            Stride.queue (Nat.iter n (fun s => stride_update_idx xv6_cfg s 0) stride_collided) =
              Stride.queue stride_collided.
Proof.
  induction n as [|n (x & E & Hq)].
  - exists 101%Q. split; vm_compute; reflexivity.
  - rewrite !Nat.iter_succ. destruct (stride_update_zero_marked xv6_cfg _ x 63 E) as (y & E' & Hq').
    exists y. split; [exact E'|]. rewrite Hq'. exact Hq.
Qed.

(** C1 (code bug): the selection loop skips every slot whose pass is
    [-1], also an occupied one. In [stride_collided], reached from
    [stride_init] by [stride_append] and [stride_update] alone, the
    occupied slot 1 has pass [-1]; once its process is runnable,
    [stride_next] returns slot 0 (pass 101), not the least-pass active
    runnable slot 1. Servicing slot 0 never changes the pass of slot 1, so
    after any number [n] of such updates [stride_next] still returns slot
    0: the runnable process of slot 1 is never selected. *)
Lemma stride_next_skips_marked :
  stride_next stride_collided [ready_proc] 0 = Some (0%nat, 0) /\
  Stride.queue stride_collided !! 1%nat = Some (PROC 0) /\
  Stride.pass stride_collided !! 1%nat = Some (-1)%Q /\
  ~ (forall k ti', stride_next stride_collided [ready_proc] 0 = Some (k, ti') ->
       least_pass_slot (active_runnable [ready_proc] stride_collided) stride_collided k) /\
  (forall n ti, let s := Nat.iter n (fun s => stride_update_idx xv6_cfg s 0) stride_collided in
     stride_next s [ready_proc] ti = Some (0%nat, ti) /\
     Stride.queue s !! 1%nat = Some (PROC 0) /\ Stride.pass s !! 1%nat = Some (-1)%Q).
Proof.
  assert (Hn : stride_next stride_collided [ready_proc] 0 = Some (0%nat, 0)) by (vm_compute; reflexivity).
  assert (Hq : Stride.queue stride_collided !! 1%nat = Some (PROC 0)) by (vm_compute; reflexivity).
  assert (H1 : Stride.pass stride_collided !! 1%nat = Some (-1)%Q) by (vm_compute; reflexivity).
  assert (H0 : Stride.pass stride_collided !! 0%nat = Some 101%Q) by (vm_compute; reflexivity).
  split; [exact Hn|]. split; [exact Hq|]. split; [exact H1|]. split.
  2: { intros n ti. cbv zeta. destruct (stride_collided_iter n) as (x & E & Qs).
       unfold stride_next. rewrite E, Qs. split; [|split].
       - replace (Stride.queue stride_collided) with (MLFQ_PROC :: PROC 0 :: repeat PNULL 62)
           by (vm_compute; reflexivity).
         apply stride_next_loop_marked.
       - exact Hq.
       - reflexivity. }
  intros H. destruct (H 0%nat 0 Hn) as [_ Hmin].
  assert (Hc : active_runnable [ready_proc] stride_collided 1).
  { right. exists 0%nat, ready_proc. split; [exact Hq|]. split; [reflexivity|]. discriminate. }
  destruct (Hmin 1%nat Hc 101%Q (-1)%Q H0 H1) as [Hle _].
  revert Hle. clear. intros Hle. unfold Qle in Hle. simpl in Hle. lia.
Qed.

(** ** Seeding of the pass of an admitted slot *)

Lemma find_null_lt (l : list pref) (i : nat) : find_null l = Some i -> (i < length l)%nat.
Proof.
  revert i. induction l as [|r l IH]; intros i H; simpl in H; [discriminate|].
  destruct r; simpl.
  - injection H as <-. lia.
  - destruct (find_null l) as [i'|] eqn:E; simpl in H; [|discriminate].
    injection H as <-. specialize (IH i' eq_refl). lia.
  - destruct (find_null l) as [i'|] eqn:E; simpl in H; [|discriminate].
    injection H as <-. specialize (IH i' eq_refl). lia.
Qed.

Lemma min_pass_fold (rest : list Q) : forall a : Q,
  let r := fold_left (fun m x => if negb (Qeq_bool x (-1)) && Qltb x m then x else m) rest a in
  (r <= a)%Q /\
  (forall j y, rest !! j = Some y -> ~ (y == -1)%Q -> (r <= y)%Q) /\
  (r = a \/ exists j, rest !! j = Some r /\ ~ (r == -1)%Q).
Proof.
  induction rest as [|x rest IH]; intros a; simpl.
  - split; [apply Qle_refl|]. split; [intros j y H; discriminate|]. left; reflexivity.
  - destruct (negb (Qeq_bool x (-1)) && Qltb x a) eqn:G.
    + apply andb_true_iff in G as [G1 G2]. apply negb_true_iff, Qeq_bool_false in G1.
      apply Qltb_iff in G2.
      destruct (IH x) as (H1 & H2 & H3). split; [|split].
      * apply (Qle_trans _ x); [exact H1|apply Qlt_le_weak; exact G2].
      * intros [|j] y Hy Hn; simpl in Hy; [injection Hy as <-; exact H1|exact (H2 j y Hy Hn)].
      * right. destruct H3 as [->|(j & Hj & Hn)]; [exists 0%nat; auto|exists (S j); auto].
    + destruct (IH a) as (H1 & H2 & H3). split; [exact H1|]. split.
      * intros [|j] y Hy Hn; simpl in Hy; [|exact (H2 j y Hy Hn)].
        injection Hy as <-. apply andb_false_iff in G as [G|G].
        -- apply negb_false_iff, Qeq_bool_iff in G. tauto.
        -- apply Qltb_false in G. apply (Qle_trans _ a); assumption.
      * destruct H3 as [->|(j & Hj & Hn)]; [left; reflexivity|right; exists (S j); auto].
Qed.

(** The seeding of [stride_append] as coded: on success the pass of the
    admitted slot (the first null queue entry) is the minimum of [pass[0]]
    and of every [pass[i]], [i > 0], that is not the inactive sentinel
    [-1]; it is one of these values. The test reads only the pass, so a
    live slot whose pass is exactly [-1] does not take part. *)
Theorem stride_append_seeds_min (cfg : config) (s : Stride.t) (pi : nat) (p : proc)
    (usage : Z) (s' : Stride.t) (p' : proc) :
  stride_append cfg s pi p usage = (1, s', p') ->
  length (Stride.pass s) = length (Stride.queue s) ->
  exists idx m, find_null (Stride.queue s) = Some idx /\ Stride.pass s' !! idx = Some m /\
    (forall x0, Stride.pass s !! 0%nat = Some x0 -> (m <= x0)%Q) /\
    (forall j y, (0 < j)%nat -> Stride.pass s !! j = Some y -> ~ (y == -1)%Q -> (m <= y)%Q) /\
    (Stride.pass s !! 0%nat = Some m \/
     exists j, (0 < j)%nat /\ Stride.pass s !! j = Some m /\ ~ (m == -1)%Q).
Proof.
  intros Hap Hlen. unfold stride_append in Hap.
  destruct ((maxstride cfg <? wrap32 (Stride.total s + usage)) || (usage <=? 0)); [discriminate|].
  destruct (find_null (Stride.queue s)) as [idx|] eqn:Ef; [|discriminate].
  injection Hap as <- _. simpl.
  exists idx, (min_pass (Stride.pass s)). split; [reflexivity|].
  pose proof (find_null_lt _ _ Ef) as Hlt.
  split; [apply list_lookup_insert_eq; lia|].
  unfold min_pass. destruct (Stride.pass s) as [|p0 rest]; [simpl in Hlen; lia|].
  destruct (min_pass_fold rest p0) as (H1 & H2 & H3). split; [|split].
  - intros x0 Hx. simpl in Hx. injection Hx as <-. exact H1.
  - intros [|j] y Hj Hy Hn; [lia|]. exact (H2 j y Hy Hn).
  - destruct H3 as [E|(j & Hj & Hn)].
    + left. rewrite E. reflexivity.
    + right. exists (S j). split; [lia|]. auto.
Qed.

Lemma stride_append_seeds_min_witness :
  stride_append xv6_cfg (stride_init xv6_cfg) 0 ready_proc 10 = (1, stride_ten, ready_proc) /\
  length (Stride.pass (stride_init xv6_cfg)) = length (Stride.queue (stride_init xv6_cfg)) /\
  exists idx m, find_null (Stride.queue (stride_init xv6_cfg)) = Some idx /\
    Stride.pass stride_ten !! idx = Some m.
Proof.
  assert (Ha : stride_append xv6_cfg (stride_init xv6_cfg) 0 ready_proc 10 = (1, stride_ten, ready_proc))
    by (vm_compute; reflexivity).
  assert (Hl : length (Stride.pass (stride_init xv6_cfg)) = length (Stride.queue (stride_init xv6_cfg)))
    by (vm_compute; reflexivity).
  split; [exact Ha|]. split; [exact Hl|].
  destruct (stride_append_seeds_min xv6_cfg _ _ _ _ _ _ Ha Hl) as (idx & m & H1 & H2 & _).
  exists idx, m. auto.
Defined.

(** C4 (code bug): in the reachable [stride_collided], slot 1 is occupied
    with pass [-1] (the rescale of [stride_update] brought it there);
    [stride_append(q, 10)] succeeds and seeds the new slot 2 with [101],
    above the pass of the occupied slot 1, which the minimum leaves out. *)
Lemma stride_append_seed_above_occupied :
  fst (fst (stride_append xv6_cfg stride_collided 1 ready_proc 10)) = 1 /\
  Stride.queue stride_collided !! 1%nat = Some (PROC 0) /\
  Stride.pass stride_collided !! 1%nat = Some (-1)%Q /\
  Stride.pass (snd (fst (stride_append xv6_cfg stride_collided 1 ready_proc 10))) !! 2%nat = Some 101%Q /\
  ~ (101 <= -1)%Q.
Proof.
  split; [vm_compute; reflexivity|]. split; [vm_compute; reflexivity|].
  split; [vm_compute; reflexivity|]. split; [vm_compute; reflexivity|].
  unfold Qle. simpl. lia.
Qed.

(** ** The circular scan of [mlfq_next] *)

Section Scan.
Context (cfg : config) (procs : list proc) (q : list (option nat)).
Local Abbreviation NPROC := (nproc cfg).

Lemma scan_level_S (stop it : nat) (flag : bool) (f : nat) :
  scan_level cfg procs q stop it flag (S f) =
  if flag || negb (Nat.eqb it stop) then
    let it := if Nat.eqb it NPROC then 0%nat else it in
    match nth it q None with
    | Some pi =>
        if runnable_at procs pi =? -1 then scan_level cfg procs q stop (S it) false f
        else Some (it, pi, runnable_at procs pi)
    | None => scan_level cfg procs q stop (S it) false f
    end
  else None.
Proof. reflexivity. Qed.

(** After the wrap: entries [a, stop) up to the stop test. *)
Lemma scan_level_tail (stop : nat) : forall n a fuel,
  (a + n)%nat = stop -> (stop <= NPROC)%nat -> (n < fuel)%nat ->
  scan_level cfg procs q stop a false fuel = first_runnable procs q (seq a n).
Proof.
  induction n as [|n IH]; intros a fuel Hs Hle Hf; destruct fuel as [|fuel]; try lia.
  - rewrite scan_level_S. rewrite Nat.add_0_r in Hs. subst. rewrite Nat.eqb_refl. reflexivity.
  - rewrite scan_level_S. destruct (Nat.eqb_spec a stop); [lia|]. destruct (Nat.eqb_spec a NPROC); [lia|].
    simpl. destruct (nth a q None) as [pi|].
    + destruct (runnable_at procs pi =? -1); [|reflexivity]. apply IH; lia.
    + apply IH; lia.
Qed.

(** Before the wrap: entries [a, NPROC), then the wrap to entry 0. *)
Lemma scan_level_head (stop : nat) : forall n a fuel,
  (a + n)%nat = NPROC -> (0 < stop < a)%nat -> (n + stop < fuel)%nat ->
  scan_level cfg procs q stop a false fuel = first_runnable procs q (seq a n ++ seq 0 stop).
Proof.
  induction n as [|n IH]; intros a fuel Hs Hst Hf; destruct fuel as [|fuel]; try lia.
  - rewrite Nat.add_0_r in Hs. subst a. rewrite scan_level_S.
    destruct (Nat.eqb_spec NPROC stop); [lia|]. rewrite Nat.eqb_refl. simpl.
    destruct stop as [|stop]; [lia|]. cbn [seq app first_runnable].
    rewrite (scan_level_tail (S stop) stop 1 fuel) by lia.
    destruct (nth 0 q None) as [pi|]; [destruct (runnable_at procs pi =? -1)|]; reflexivity.
  - rewrite scan_level_S. destruct (Nat.eqb_spec a stop); [lia|]. destruct (Nat.eqb_spec a NPROC); [lia|].
    simpl. destruct (nth a q None) as [pi|].
    + destruct (runnable_at procs pi =? -1); [|reflexivity]. apply IH; lia.
    + apply IH; lia.
Qed.

(** The loop of one level visits the entries in the order [rot_order (c+1)]. *)
Lemma scan_level_rot (c : nat) : (c < NPROC)%nat ->
  scan_level cfg procs q (S c) (S c) true (S NPROC) = first_runnable procs q (rot_order cfg (S c)).
Proof.
  intros Hc. unfold rot_order. rewrite scan_level_S, orb_true_l.
  destruct (Nat.eqb_spec (S c) NPROC) as [E|E].
  - rewrite <- E, Nat.sub_diag, app_nil_l.
    cbv zeta. rewrite (scan_level_tail (S c) c 1 (S c)) by lia. cbn [seq app first_runnable].
    destruct (nth 0 q None) as [pi|]; [destruct (runnable_at procs pi =? -1)|]; reflexivity.
  - replace (NPROC - S c)%nat with (S (NPROC - S (S c))) by lia.
    cbv zeta. rewrite (scan_level_head (S c) (NPROC - S (S c)) (S (S c)) NPROC) by lia.
    cbn [seq app first_runnable].
    destruct (nth (S c) q None) as [pi|]; [destruct (runnable_at procs pi =? -1)|]; reflexivity.
Qed.

End Scan.

Lemma first_runnable_none (procs : list proc) (q : list (option nat)) (l : list nat) :
  first_runnable procs q l = None <->
  forall j pi, In j l -> nth j q None = Some pi -> runnable_at procs pi = -1.
Proof.
  induction l as [|j l IH]; simpl.
  - split; [intros _ j pi []|reflexivity].
  - destruct (nth j q None) as [pi|] eqn:E.
    + destruct (Z.eqb_spec (runnable_at procs pi) (-1)) as [R|R].
      * rewrite IH. split.
        -- intros H j' pi' [<-|Hin] Hq; [congruence|exact (H j' pi' Hin Hq)].
        -- intros H j' pi' Hin Hq. exact (H j' pi' (or_intror Hin) Hq).
      * split; [discriminate|]. intros H. exfalso. exact (R (H j pi (or_introl eq_refl) E)).
    + rewrite IH. split.
      * intros H j' pi' [<-|Hin] Hq; [congruence|exact (H j' pi' Hin Hq)].
      * intros H j' pi' Hin Hq. exact (H j' pi' (or_intror Hin) Hq).
Qed.

Lemma rot_order_in (cfg : config) (c j : nat) :
  (c <= nproc cfg)%nat -> In j (rot_order cfg c) <-> (j < nproc cfg)%nat.
Proof. intros Hc. unfold rot_order. rewrite in_app_iff, !in_seq. lia. Qed.

Lemma mlfq_next_levels_after (cfg : config) (procs : list proc) (m : Mlfq.t) :
  forall lv, (forall i, In i lv -> (nth i (Mlfq.iterstate m) 0 < nproc cfg)%nat) ->
  mlfq_next_levels cfg procs m lv = next_after_cursor cfg procs m lv.
Proof.
  induction lv as [|i lv IH]; intros Hc; cbn [mlfq_next_levels next_after_cursor]; [reflexivity|].
  rewrite scan_level_rot by (apply Hc; left; reflexivity).
  destruct (first_runnable procs (nth i (Mlfq.queue m) []) (rot_order cfg (S (nth i (Mlfq.iterstate m) 0%nat))))
    as [[[j pi] idx]|]; [reflexivity|].
  apply IH. intros i' Hi. apply Hc. right. exact Hi.
Qed.

Lemma next_after_cursor_none (cfg : config) (procs : list proc) (m : Mlfq.t) :
  forall lv, (forall i, In i lv -> (nth i (Mlfq.iterstate m) 0 < nproc cfg)%nat) ->
  fst (next_after_cursor cfg procs m lv) = None <->
  forall i j pi, In i lv -> (j < nproc cfg)%nat ->
    nth j (nth i (Mlfq.queue m) []) None = Some pi -> runnable_at procs pi = -1.
Proof.
  induction lv as [|i lv IH]; intros Hc; cbn [next_after_cursor].
  - split; [intros _ i j pi []|reflexivity].
  - assert (Hci : (S (nth i (Mlfq.iterstate m) 0) <= nproc cfg)%nat)
      by (apply Hc; left; reflexivity).
    destruct (first_runnable procs (nth i (Mlfq.queue m) []) (rot_order cfg (S (nth i (Mlfq.iterstate m) 0%nat))))
      as [[[j pi] idx]|] eqn:E.
    + split; [discriminate|]. intros H. exfalso.
      assert (Hn : first_runnable procs (nth i (Mlfq.queue m) [])
                     (rot_order cfg (S (nth i (Mlfq.iterstate m) 0%nat))) = None).
      { apply first_runnable_none. intros j' pi' Hin Hq.
        apply (H i j' pi' (or_introl eq_refl)); [|exact Hq].
        apply (rot_order_in cfg _ j' Hci). exact Hin. }
      congruence.
    + pose proof (proj1 (first_runnable_none _ _ _) E) as E1. clear E. rename E1 into E.
      rewrite (IH (fun i' Hi => Hc i' (or_intror Hi))). split.
      * intros H i' j' pi' [<-|Hin] Hj Hq; [|exact (H i' j' pi' Hin Hj Hq)].
        apply (E j' pi'); [apply (rot_order_in cfg _ j' Hci); exact Hj|exact Hq].
      * intros H i' j' pi' Hin Hj Hq. exact (H i' j' pi' (or_intror Hin) Hj Hq).
Qed.

(** C6 (amended): with each level's saved cursor inside the level,
    [mlfq_next] scans level 0, then 1, then 2; within a level it examines
    the entries circularly starting just after the saved cursor (the
    cursor itself last), returns the first process with a RUNNABLE thread
    together with that thread's index, and sets the cursor to the chosen
    entry; it returns null exactly when no entry of any level holds a
    process with a RUNNABLE thread. *)
Theorem mlfq_next_after_cursor (cfg : config) (m : Mlfq.t) (procs : list proc) :
  (forall i, (i < NMLFQ)%nat -> (nth i (Mlfq.iterstate m) 0 < nproc cfg)%nat) ->
  mlfq_next cfg m procs = next_after_cursor cfg procs m (seq 0 NMLFQ) /\
  (fst (mlfq_next cfg m procs) = None <->
   forall i j pi, (i < NMLFQ)%nat -> (j < nproc cfg)%nat ->
     nth j (nth i (Mlfq.queue m) []) None = Some pi -> runnable_at procs pi = -1).
Proof.
  intros Hc.
  assert (Hc' : forall i, In i (seq 0 NMLFQ) -> (nth i (Mlfq.iterstate m) 0 < nproc cfg)%nat).
  { intros i Hi. apply in_seq in Hi. apply Hc. lia. }
  unfold mlfq_next. rewrite (mlfq_next_levels_after cfg procs m _ Hc').
  split; [reflexivity|]. rewrite (next_after_cursor_none cfg procs m _ Hc'). split.
  - intros H i j pi Hi. apply H. apply in_seq. lia.
  - intros H i j pi Hi. apply H. apply in_seq in Hi. lia.
Qed.

Lemma mlfq_next_after_cursor_witness :
  (forall i, (i < NMLFQ)%nat -> (nth i (Mlfq.iterstate mlfq_two) 0 < nproc xv6_cfg)%nat) /\
  mlfq_next xv6_cfg mlfq_two [ready_proc; ready_proc] =
    next_after_cursor xv6_cfg [ready_proc; ready_proc] mlfq_two (seq 0 NMLFQ).
Proof.
  assert (Hc : forall i, (i < NMLFQ)%nat -> (nth i (Mlfq.iterstate mlfq_two) 0 < nproc xv6_cfg)%nat).
  { intros [|[|[|i]]] Hi; [vm_compute; lia..|unfold NMLFQ in Hi; lia]. }
  split; [exact Hc|].
  exact (proj1 (mlfq_next_after_cursor xv6_cfg mlfq_two [ready_proc; ready_proc] Hc)).
Defined.

(** C6 (counterexample): right after [mlfq_init] the cursors designate
    entry 0; with runnable processes in entries 0 and 1 of level 0,
    [mlfq_next] returns the process of entry 1, while a scan starting from
    the cursor entry returns the process of entry 0. *)
Lemma mlfq_next_skips_cursor_entry :
  fst (mlfq_next xv6_cfg mlfq_two [ready_proc; ready_proc]) = Some (1%nat, 0) /\
  fst (next_from_cursor xv6_cfg [ready_proc; ready_proc] mlfq_two (seq 0 NMLFQ)) = Some (0%nat, 0).
Proof. split; vm_compute; reflexivity. Qed.

(** ** Demotion and time slice in [mlfq_update] *)

Lemma nth_insert_eq {A} (l : list A) (i : nat) (x d : A) :
  (i < length l)%nat -> nth i (<[i := x]> l) d = x.
Proof.
  revert i. induction l as [|y l IH]; intros [|i] H; simpl in *; try lia; [reflexivity|].
  apply IH. lia.
Qed.

Lemma nth_insert_ne {A} (l : list A) (i j : nat) (x d : A) :
  i <> j -> nth j (<[i := x]> l) d = nth j l d.
Proof.
  revert i j. induction l as [|y l IH]; intros [|i] [|j] H; simpl; try reflexivity; [lia|].
  apply IH. lia.
Qed.

Lemma find_none_some (l : list (option nat)) (j : nat) : find_none l = Some j -> l !! j = Some None.
Proof.
  revert j. induction l as [|x l IH]; intros j H; simpl in H; [discriminate|].
  destruct x as [x|].
  - destruct (find_none l) as [j'|] eqn:E; simpl in H; [|discriminate].
    injection H as <-. exact (IH j' eq_refl).
  - injection H as <-. reflexivity.
Qed.

Lemma find_none_full (l : list (option nat)) :
  find_none l = None -> length (level_entries l) = length l.
Proof.
  induction l as [|x l IH]; intros H; simpl; [reflexivity|].
  destruct x as [x|]; simpl in H; [|discriminate].
  destruct (find_none l); simpl in H; [discriminate|]. simpl. rewrite IH; reflexivity.
Qed.

(** A level of [NPROC] entries holding distinct process-table indices, none
    of them [pi], has a free entry. *)
Lemma find_none_exists (l : list (option nat)) (pi n : nat) :
  length l = n -> NoDup (pi :: level_entries l) ->
  Forall (fun x => (x < n)%nat) (pi :: level_entries l) ->
  exists j, find_none l = Some j.
Proof.
  intros Hl Hnd Hlt. destruct (find_none l) as [j|] eqn:E; [exists j; reflexivity|].
  exfalso. apply find_none_full in E.
  apply NoDup_ListNoDup in Hnd.
  assert (Hinc : incl (pi :: level_entries l) (seq 0 n)).
  { intros x Hx. apply in_seq. rewrite Forall_forall in Hlt. specialize (Hlt x (proj2 (list_elem_of_In _ _) Hx)). lia. }
  pose proof (NoDup_incl_length Hnd Hinc) as H. rewrite length_seq in H. simpl in H. lia.
Qed.

(** C2: for a process [p] at MLFQ level [L] that is neither ZOMBIE nor
    killed, [mlfq_update] moves [p] into a free entry of level [L+1] with
    [elapsed] reset to 0, clears its entry of level [L] and reports NEXT
    when a lower level exists and [elapsed >= expire[L]]; otherwise it
    reports KEEP when [now - start < q[L]] and NEXT when
    [now - start >= q[L]]. Level [L+1] has [NPROC] entries holding distinct
    process-table indices other than [p]'s, so the elevation never panics;
    clock values are taken below [2^32]. *)
Theorem mlfq_update_level (cfg : config) (m : Mlfq.t) (pi : nat) (p : proc) (ctime : Z) (L : nat) :
  level (mlfq p) = Z.of_nat L -> (L < NMLFQ)%nat ->
  state p <> ZOMBIE -> killed p = 0 ->
  length (Mlfq.queue m) = NMLFQ ->
  ((S L < NMLFQ)%nat ->
     length (nth (S L) (Mlfq.queue m) []) = nproc cfg /\
     NoDup (pi :: level_entries (nth (S L) (Mlfq.queue m) [])) /\
     Forall (fun x => (x < nproc cfg)%nat) (pi :: level_entries (nth (S L) (Mlfq.queue m) []))) ->
  0 <= start (mlfq p) <= ctime -> ctime < 2 ^ 32 ->
  let m1 := set_metasched m (stride_update_idx cfg (Mlfq.metasched m) 0) in
  ((S L < NMLFQ)%nat -> nth L (Mlfq.expire m) 0 <= elapsed (mlfq p) ->
     exists j m' p', mlfq_update cfg m pi p ctime = Some (MLFQ_NEXT, m', p') /\
       slot m (S L) j = None /\ slot m' (S L) j = Some pi /\
       slot m' L (Z.to_nat (index (mlfq p))) = None /\
       level (mlfq p') = Z.of_nat (S L) /\ index (mlfq p') = Z.of_nat j /\
       elapsed (mlfq p') = 0 /\ Mlfq.metasched m' = Mlfq.metasched m1) /\
  (~ ((S L < NMLFQ)%nat /\ nth L (Mlfq.expire m) 0 <= elapsed (mlfq p)) ->
     ctime - start (mlfq p) < nth L (Mlfq.quantum m) 0 ->
     mlfq_update cfg m pi p ctime = Some (MLFQ_KEEP, m1, p)) /\
  (~ ((S L < NMLFQ)%nat /\ nth L (Mlfq.expire m) 0 <= elapsed (mlfq p)) ->
     nth L (Mlfq.quantum m) 0 <= ctime - start (mlfq p) ->
     mlfq_update cfg m pi p ctime = Some (MLFQ_NEXT, m1, p)).
Proof.
  intros Hlv HL Hz Hk Hq Hfree Hs Hc m1.
  assert (Hpre : mlfq_update cfg m pi p ctime =
    if (Z.of_nat L + 1 <? Z.of_nat NMLFQ) && (nth L (Mlfq.expire m) 0 <=? elapsed (mlfq p)) then
      match mlfq_append m1 pi p (Z.to_nat (Z.of_nat L + 1)) with
      | (r, m2, p2) =>
          if r =? MLFQ_SUCCESS then
            Some (MLFQ_NEXT, set_queue m2 (set2 (Mlfq.queue m2) L (Z.to_nat (index (mlfq p))) None), p2)
          else None
      end
    else if u32 (ctime - start (mlfq p)) <? nth L (Mlfq.quantum m) 0
    then Some (MLFQ_KEEP, m1, p)
    else Some (MLFQ_NEXT, m1, p)).
  { unfold mlfq_update. apply procstate_eqb_false in Hz. rewrite Hz, Hk, Hlv. simpl.
    destruct (Z.eqb_spec (Z.of_nat L) (-1)); [lia|]. rewrite Nat2Z.id. reflexivity. }
  assert (Hu : u32 (ctime - start (mlfq p)) = ctime - start (mlfq p))
    by (unfold u32; apply Z.mod_small; lia).
  rewrite Hu in Hpre. split; [|split].
  - intros HSL He. rewrite Hpre.
    replace ((Z.of_nat L + 1 <? Z.of_nat NMLFQ) && (nth L (Mlfq.expire m) 0 <=? elapsed (mlfq p)))
      with true by (symmetry; apply andb_true_iff; split; [apply Z.ltb_lt; unfold NMLFQ in *; lia|apply Z.leb_le; exact He]).
    replace (Z.to_nat (Z.of_nat L + 1)) with (S L) by lia.
    destruct (Hfree HSL) as (Hlen & Hnd & Hlt).
    destruct (find_none_exists _ pi (nproc cfg) Hlen Hnd Hlt) as [j Hj].
    pose proof (find_none_some _ _ Hj) as Hjn.
    assert (Hjl : (j < length (nth (S L) (Mlfq.queue m) []))%nat) by (apply lookup_lt_Some in Hjn; exact Hjn).
    unfold mlfq_append. simpl. rewrite Hj. simpl.
    eexists j, _, _. split; [reflexivity|].
    split; [unfold slot; rewrite Hjn; reflexivity|].
    split.
    { unfold slot. simpl. unfold set2 at 1. rewrite nth_insert_ne by lia.
      unfold set2. rewrite nth_insert_eq by (unfold NMLFQ in *; lia).
      rewrite list_lookup_insert_eq by exact Hjl.
      reflexivity. }
    split.
    { unfold slot. simpl. unfold set2 at 1.
      rewrite nth_insert_eq by (unfold set2; rewrite length_insert; unfold NMLFQ in *; lia).
      rewrite list_lookup_insert. destruct (decide _) as [_|Hn]; [reflexivity|].
      rewrite lookup_ge_None_2; [reflexivity|].
      destruct (Nat.lt_ge_cases (Z.to_nat (index (mlfq p)))
                  (length (nth L (set2 (Mlfq.queue m) (S L) j (Some pi)) []))); [|assumption].
      exfalso. apply Hn. split; [reflexivity|assumption]. }
    split; [reflexivity|]. split; [reflexivity|]. split; reflexivity.
  - intros Hn Hlt. rewrite Hpre.
    replace ((Z.of_nat L + 1 <? Z.of_nat NMLFQ) && (nth L (Mlfq.expire m) 0 <=? elapsed (mlfq p)))
      with false.
    + apply Z.ltb_lt in Hlt. rewrite Hlt. reflexivity.
    + symmetry. apply andb_false_iff.
      destruct (Z.ltb_spec (Z.of_nat L + 1) (Z.of_nat NMLFQ)) as [H1|H1]; [right|left; reflexivity].
      apply Z.leb_gt. destruct (Z.le_gt_cases (nth L (Mlfq.expire m) 0) (elapsed (mlfq p))); [|lia].
      exfalso. apply Hn. split; [lia|assumption].
  - intros Hn Hge. rewrite Hpre.
    replace ((Z.of_nat L + 1 <? Z.of_nat NMLFQ) && (nth L (Mlfq.expire m) 0 <=? elapsed (mlfq p)))
      with false.
    + replace (ctime - start (mlfq p) <? nth L (Mlfq.quantum m) 0) with false
        by (symmetry; apply Z.ltb_ge; exact Hge).
      reflexivity.
    + symmetry. apply andb_false_iff.
      destruct (Z.ltb_spec (Z.of_nat L + 1) (Z.of_nat NMLFQ)) as [H1|H1]; [right|left; reflexivity].
      apply Z.leb_gt. destruct (Z.le_gt_cases (nth L (Mlfq.expire m) 0) (elapsed (mlfq p))); [|lia].
      exfalso. apply Hn. split; [lia|assumption].
Qed.

Lemma mlfq_update_level_witness :
  exists j m' p', mlfq_update xv6_cfg mlfq_one 0 mlfq_proc 130 = Some (MLFQ_NEXT, m', p') /\
    slot m' 1 j = Some 0%nat /\ slot m' 0 0 = None /\ elapsed (mlfq p') = 0.
Proof.
  assert (Hf : (1 < NMLFQ)%nat ->
     length (nth 1 (Mlfq.queue mlfq_one) []) = nproc xv6_cfg /\
     NoDup (0%nat :: level_entries (nth 1 (Mlfq.queue mlfq_one) [])) /\
     Forall (fun x => (x < nproc xv6_cfg)%nat) (0%nat :: level_entries (nth 1 (Mlfq.queue mlfq_one) []))).
  { intros _. split; [vm_compute; reflexivity|].
    split; refine (bool_decide_unpack _ _); vm_compute; exact I. }
  destruct (mlfq_update_level xv6_cfg mlfq_one 0 mlfq_proc 130 0 eq_refl
              ltac:(unfold NMLFQ; lia) ltac:(discriminate) eq_refl
              ltac:(vm_compute; reflexivity) Hf ltac:(simpl; lia) ltac:(lia)) as [Hd _].
  destruct (Hd ltac:(unfold NMLFQ; lia) ltac:(simpl; lia))
    as (j & m' & p' & Hu & _ & Hs1 & Hs0 & _ & _ & He & _).
  exists j, m', p'. split; [exact Hu|]. split; [exact Hs1|]. split; [exact Hs0|exact He].
Defined.

(** * Further properties *)

(** ** runnable *)

Lemma runnable_from_spec (ts : list thread) : forall i0,
  (runnable_from ts i0 = -1 /\ forall j t, ts !! j = Some t -> tstate t <> RUNNABLE) \/
  (exists i t, runnable_from ts i0 = i0 + Z.of_nat i /\ ts !! i = Some t /\ tstate t = RUNNABLE /\
     forall j t', (j < i)%nat -> ts !! j = Some t' -> tstate t' <> RUNNABLE).
Proof.
  induction ts as [|t ts IH]; intros i0; simpl.
  - left. split; [reflexivity|]. intros j t H. rewrite lookup_nil in H. discriminate.
  - destruct (procstate_eqb (tstate t) RUNNABLE) eqn:E.
    + apply procstate_eqb_true in E. right. exists 0%nat, t.
      split; [lia|]. split; [reflexivity|]. split; [exact E|]. intros j t' Hj. lia.
    + apply procstate_eqb_false in E. destruct (IH (i0 + 1)) as [[H1 H2]|(i & t' & H1 & H2 & H3 & H4)].
      * left. split; [exact H1|]. intros [|j] t' Ht; simpl in Ht; [congruence|exact (H2 j t' Ht)].
      * right. exists (S i), t'. split; [lia|]. split; [exact H2|]. split; [exact H3|].
        intros [|j] t'' Hj Ht; simpl in Ht; [congruence|]. apply (H4 j t''); [lia|exact Ht].
Qed.

(** [runnable p] returns the index of the first RUNNABLE thread of [p], or
    -1 when [p] has no RUNNABLE thread. *)
Theorem runnable_first (p : proc) :
  (runnable p = -1 /\ forall j t, threads p !! j = Some t -> tstate t <> RUNNABLE) \/
  (exists i t, runnable p = Z.of_nat i /\ threads p !! i = Some t /\ tstate t = RUNNABLE /\
     forall j t', (j < i)%nat -> threads p !! j = Some t' -> tstate t' <> RUNNABLE).
Proof.
  unfold runnable. destruct (runnable_from_spec (threads p) 0) as [H|(i & t & H1 & H)].
  - left. exact H.
  - right. exists i, t. split; [lia|exact H].
Qed.

Lemma runnable_some (p : proc) :
  runnable p <> -1 ->
  exists t, threads p !! Z.to_nat (runnable p) = Some t /\ tstate t = RUNNABLE /\ 0 <= runnable p.
Proof.
  intros Hr. destruct (runnable_from_spec (threads p) 0) as [[H _]|(i & t & H1 & H2 & H3 & _)].
  - unfold runnable in Hr. congruence.
  - unfold runnable. rewrite H1. exists t. rewrite Z.add_0_l, Nat2Z.id. repeat split; auto. lia.
Qed.

(** ** kill *)

Lemma find_pid_some (ps : list proc) (v : Z) (i : nat) :
  find_pid ps v = Some i ->
  exists p, ps !! i = Some p /\ pid p = v /\ forall j q, (j < i)%nat -> ps !! j = Some q -> pid q <> v.
Proof.
  revert i. induction ps as [|p ps IH]; intros i H; simpl in H; [discriminate|].
  destruct (Z.eqb_spec (pid p) v) as [E|E].
  - injection H as <-. exists p. split; [reflexivity|]. split; [exact E|]. intros j q Hj. lia.
  - destruct (find_pid ps v) as [i'|] eqn:F; simpl in H; [|discriminate]. injection H as <-.
    destruct (IH i' eq_refl) as (q & H1 & H2 & H3). exists q. split; [exact H1|]. split; [exact H2|].
    intros [|j] q' Hj Hq; simpl in Hq; [congruence|]. apply (H3 j q'); [lia|exact Hq].
Qed.

Lemma find_pid_none (ps : list proc) (v : Z) :
  find_pid ps v = None -> forall i p, ps !! i = Some p -> pid p <> v.
Proof.
  induction ps as [|p ps IH]; intros H i q Hq; simpl in H.
  - rewrite lookup_nil in Hq. discriminate.
  - destruct (Z.eqb_spec (pid p) v) as [E|E]; [discriminate|].
    destruct (find_pid ps v) eqn:F; [discriminate|].
    destruct i as [|i]; simpl in Hq; [congruence|exact (IH eq_refl i q Hq)].
Qed.

(** [kill(pid)] returns -1 and changes nothing when no slot of the process
    table has that pid. Otherwise it acts on the first slot (in table
    order) whose pid matches, whatever its state: that process gets
    [killed = 1] and each of its SLEEPING threads becomes RUNNABLE; every
    other thread and field, every other slot, the MLFQ state and the
    counters are unchanged, and it returns 0. *)
Theorem kill_first_match (k : kstate) (v : Z) :
  let '(r, k') := kill k v in
  ((forall i p, ptable k !! i = Some p -> pid p <> v) /\ r = -1 /\ k' = k) \/
  (exists i p, ptable k !! i = Some p /\ pid p = v /\
     (forall j q, (j < i)%nat -> ptable k !! j = Some q -> pid q <> v) /\
     r = 0 /\ kmlfq k' = kmlfq k /\ nextpid k' = nextpid k /\ nexttid k' = nexttid k /\
     length (ptable k') = length (ptable k) /\
     (forall j, j <> i -> ptable k' !! j = ptable k !! j) /\
     exists p', ptable k' !! i = Some p' /\ killed p' = 1 /\
       pid p' = pid p /\ state p' = state p /\ tidx p' = tidx p /\ kstacks p' = kstacks p /\
       ustacks p' = ustacks p /\ mlfq p' = mlfq p /\ parent p' = parent p /\
       length (threads p') = length (threads p) /\
       forall j t, threads p !! j = Some t ->
         (tstate t = SLEEPING -> threads p' !! j = Some (set_tstate t RUNNABLE)) /\
         (tstate t <> SLEEPING -> threads p' !! j = Some t)).
Proof.
  unfold kill. destruct (find_pid (ptable k) v) as [i|] eqn:F.
  - right. destruct (find_pid_some _ _ _ F) as (p & Hp & Hv & Hfirst).
    exists i, p. split; [exact Hp|]. split; [exact Hv|]. split; [exact Hfirst|].
    rewrite (nth_lookup_Some _ _ _ _ Hp). unfold set_proc; simpl.
    do 4 (split; [reflexivity|]). split; [apply length_insert|].
    split; [intros j Hj; apply list_lookup_insert_ne; congruence|].
    eexists. split; [apply list_lookup_insert_eq; eapply lookup_lt_Some; exact Hp|]. simpl.
    do 8 (split; [reflexivity|]). split; [rewrite length_map; reflexivity|].
    intros j t Ht. rewrite lookup_map_list, Ht. simpl. split.
    + intros Hs. rewrite Hs. reflexivity.
    + intros Hs. destruct (procstate_eqb (tstate t) SLEEPING) eqn:E; [|reflexivity].
      apply procstate_eqb_true in E. contradiction.
  - left. split; [exact (find_pid_none _ _ F)|]. split; reflexivity.
Qed.


(** ** Entries of the MLFQ array *)

Lemma nth_set2 (q : list (list (option nat))) (l j : nat) (x : option nat) (l' : nat) :
  nth l' (set2 q l j x) [] = if decide (l = l') then <[j := x]> (nth l q []) else nth l' q [].
Proof.
  unfold set2. destruct (decide (l = l')) as [<-|Hne].
  - destruct (decide (l < length q)%nat) as [Hlt|Hge].
    + apply nth_insert_eq. exact Hlt.
    + rewrite list_insert_ge by lia. rewrite nth_overflow by lia. reflexivity.
  - apply nth_insert_ne. exact Hne.
Qed.

Lemma slot_set2_eq (m0 : Mlfq.t) (q : list (list (option nat))) (l j : nat) :
  slot (set_queue m0 (set2 q l j None)) l j = None.
Proof.
  unfold slot; simpl. rewrite nth_set2. destruct (decide (l = l)) as [_|n]; [|congruence].
  rewrite list_lookup_insert. destruct (decide _) as [_|Hn]; [reflexivity|].
  rewrite lookup_ge_None_2; [reflexivity|].
  destruct (decide (j < length (nth l q []))%nat); [exfalso; tauto|lia].
Qed.

Lemma slot_set2_ne (m0 m : Mlfq.t) (l j : nat) (x : option nat) (l' j' : nat) :
  (l', j') <> (l, j) -> slot (set_queue m0 (set2 (Mlfq.queue m) l j x)) l' j' = slot m l' j'.
Proof.
  intros Hne. unfold slot; simpl. rewrite nth_set2. destruct (decide (l = l')) as [<-|_]; [|reflexivity].
  rewrite list_lookup_insert_ne by congruence. reflexivity.
Qed.

(** ** mlfq_cpu_share *)

(** [mlfq_cpu_share] on a process registered in the MLFQ (its [level] and
    [index] inside [queue]): when [stride_append] rejects the share it
    returns -1 and changes nothing; when it accepts it, it returns 0, the
    stride state is the one [stride_append] built, the process moves to
    level -1 at the stride slot that now holds it, its old MLFQ entry is
    cleared and every other MLFQ entry is unchanged. *)
Theorem mlfq_cpu_share_moves (cfg : config) (m : Mlfq.t) (pi : nat) (p : proc) (usage : Z) :
  0 <= level (mlfq p) < Z.of_nat NMLFQ -> 0 <= index (mlfq p) < Z.of_nat (nproc cfg) ->
  let '(r, s', p') := stride_append cfg (Mlfq.metasched m) pi p usage in
  (r = 0 /\ mlfq_cpu_share cfg m pi p usage = Some (-1, m, p)) \/
  (r = 1 /\ exists m', mlfq_cpu_share cfg m pi p usage = Some (0, m', p') /\
     Mlfq.metasched m' = s' /\ level (mlfq p') = -1 /\
     Stride.queue s' !! Z.to_nat (index (mlfq p')) = Some (PROC pi) /\
     slot m' (Z.to_nat (level (mlfq p))) (Z.to_nat (index (mlfq p))) = None /\
     forall l j, (l, j) <> (Z.to_nat (level (mlfq p)), Z.to_nat (index (mlfq p))) ->
       slot m' l j = slot m l j).
Proof.
  intros Hl Hi. unfold mlfq_cpu_share.
  destruct (stride_append cfg (Mlfq.metasched m) pi p usage) as [[r s'] p'] eqn:E.
  unfold stride_append in E.
  destruct ((maxstride cfg <? wrap32 (Stride.total (Mlfq.metasched m) + usage)) || (usage <=? 0)).
  { injection E as <- <- <-. left. split; reflexivity. }
  destruct (find_null (Stride.queue (Mlfq.metasched m))) as [idx|] eqn:Fn.
  2: { injection E as <- <- <-. left. split; reflexivity. }
  injection E as <- <- <-. right. split; [reflexivity|]. simpl.
  unfold clear_entry.
  replace ((0 <=? level (mlfq p)) && (level (mlfq p) <? Z.of_nat NMLFQ) && (0 <=? index (mlfq p)) &&
           (index (mlfq p) <? Z.of_nat (nproc cfg))) with true
    by (symmetry; repeat rewrite andb_true_iff; rewrite !Z.leb_le, !Z.ltb_lt; lia).
  simpl. eexists. split; [reflexivity|]. simpl. split; [reflexivity|]. split; [reflexivity|].
  split.
  { rewrite Nat2Z.id. apply list_lookup_insert_eq. apply find_null_lt. exact Fn. }
  split; [apply slot_set2_eq|].
  intros l j Hne. apply slot_set2_ne. exact Hne.
Qed.

(** A process already under the stride scheduler ([level = -1]) whose new
    share [stride_append] accepts makes [mlfq_cpu_share] write
    [queue[-1][index]], outside the MLFQ array. *)
Theorem mlfq_cpu_share_stride_oob (cfg : config) (m : Mlfq.t) (pi : nat) (p : proc) (usage : Z) :
  level (mlfq p) = -1 ->
  fst (fst (stride_append cfg (Mlfq.metasched m) pi p usage)) = 1 ->
  mlfq_cpu_share cfg m pi p usage = None.
Proof.
  intros Hl Hr. unfold mlfq_cpu_share.
  destruct (stride_append cfg (Mlfq.metasched m) pi p usage) as [[r s'] p'].
  simpl in Hr. subst r. simpl. unfold clear_entry. rewrite Hl. reflexivity.
Qed.

(** ** stride_append / stride_delete *)

Lemma wrap32_range (z : Z) : -2 ^ 31 <= z < 2 ^ 31 -> wrap32 z = z.
Proof.
  intros H. unfold wrap32. rewrite Z.mod_small by lia. lia.
Qed.

Lemma wrap32_add_wrap (a b : Z) : wrap32 (wrap32 a + b) = wrap32 (a + b).
Proof.
  unfold wrap32. f_equal.
  replace (a + 2 ^ 31) with (a + 2 ^ 31) by reflexivity.
  replace ((a + 2 ^ 31) mod 2 ^ 32 - 2 ^ 31 + b + 2 ^ 31) with ((a + 2 ^ 31) mod 2 ^ 32 + b) by lia.
  rewrite Z.add_mod_idemp_l by lia. f_equal. lia.
Qed.

Lemma find_null_some (l : list pref) (i : nat) : find_null l = Some i -> l !! i = Some PNULL.
Proof.
  revert i. induction l as [|r l IH]; intros i H; simpl in H; [discriminate|].
  destruct r.
  - injection H as <-. reflexivity.
  - destruct (find_null l) as [i'|] eqn:E; simpl in H; [|discriminate].
    injection H as <-. exact (IH i' eq_refl).
  - destruct (find_null l) as [i'|] eqn:E; simpl in H; [|discriminate].
    injection H as <-. exact (IH i' eq_refl).
Qed.

(** Deleting a process right after [stride_append] accepted it restores
    the stride state exactly, provided slot 0 holds the MLFQ aggregate,
    free slots are clean (pass -1, ticket 0, as [stride_init] and
    [stride_delete] leave them) and [total] and [ticket[0]] are [int]
    values. *)
Theorem stride_delete_append (cfg : config) (s s' : Stride.t) (pi : nat) (p p' : proc) (usage : Z) :
  stride_append cfg s pi p usage = (1, s', p') ->
  Stride.queue s !! 0%nat = Some MLFQ_PROC ->
  (forall j, Stride.queue s !! j = Some PNULL ->
     Stride.pass s !! j = Some (-1)%Q /\ Stride.ticket s !! j = Some 0) ->
  -2 ^ 31 <= Stride.total s < 2 ^ 31 ->
  -2 ^ 31 <= nth 0 (Stride.ticket s) 0 < 2 ^ 31 ->
  stride_delete s' p' = s.
Proof.
  intros E H0 Hclean Ht Ht0. unfold stride_append in E.
  destruct ((maxstride cfg <? wrap32 (Stride.total s + usage)) || (usage <=? 0)); [discriminate|].
  destruct (find_null (Stride.queue s)) as [idx|] eqn:Fn; [|discriminate].
  injection E as <- <-. apply find_null_some in Fn.
  destruct (Hclean idx Fn) as [Hp Htk].
  assert (Hidx : idx <> 0%nat) by (intros ->; congruence).
  assert (Hlen0 : (0 < length (Stride.ticket s))%nat) by (apply lookup_lt_Some in Htk; lia).
  assert (Hleni : (idx < length (Stride.ticket s))%nat) by (apply lookup_lt_Some in Htk; lia).
  destruct s as [qu tot ps tk qs]; simpl in *. unfold stride_delete; simpl. rewrite Nat2Z.id.
  rewrite (nth_insert_eq _ idx usage) by (rewrite length_insert; exact Hleni).
  rewrite (nth_insert_ne _ idx 0 _ _ Hidx).
  rewrite (nth_insert_eq _ 0 _) by exact Hlen0.
  f_equal.
  - unfold Z.sub. rewrite wrap32_add_wrap. replace (tot + usage + - usage) with tot by lia.
    apply wrap32_range; exact Ht.
  - rewrite list_insert_insert_eq. apply list_insert_id. exact Hp.
  - unfold Z.sub. rewrite wrap32_add_wrap. replace (nth 0 tk 0 + - usage + usage) with (nth 0 tk 0) by lia.
    rewrite (wrap32_range (nth 0 tk 0)) by exact Ht0.
    rewrite (list_insert_insert_ne _ 0 idx) by congruence.
    rewrite !list_insert_insert_eq.
    rewrite (list_insert_id tk 0 (nth 0 tk 0)).
    + apply list_insert_id. exact Htk.
    + destruct (nth_lookup_or_length tk 0 0) as [E0|E0]; [exact E0|lia].
  - rewrite list_insert_insert_eq. apply list_insert_id. exact Fn.
Qed.

(** ** Thread ids *)

Lemma upd_thread_lookup (p : proc) (j0 : nat) (f : thread -> thread) (j : nat) :
  threads (upd_thread p j0 f) !! j = if decide (j = j0) then f <$> threads p !! j0 else threads p !! j.
Proof.
  unfold upd_thread; simpl. destruct (decide (j = j0)) as [->|Hne].
  - destruct (nth_lookup_or_length (threads p) j0 dummy_thread) as [E|E].
    + rewrite E. simpl. apply list_lookup_insert_eq. eapply lookup_lt_Some; exact E.
    + rewrite list_insert_ge by lia. rewrite (proj2 (lookup_ge_None _ _)) by lia. reflexivity.
  - apply list_lookup_insert_ne. congruence.
Qed.

Lemma mlfq_append_threads (m : Mlfq.t) (pi : nat) (p : proc) (lvl : nat) :
  threads (snd (mlfq_append m pi p lvl)) = threads p /\ kstacks (snd (mlfq_append m pi p lvl)) = kstacks p /\
  ustacks (snd (mlfq_append m pi p lvl)) = ustacks p.
Proof. unfold mlfq_append. destruct (find_none _); simpl; auto. Qed.

(** One step of the process table that keeps or clears every thread id,
    except possibly one thread [(i0, j0)] that receives the fresh id [n]. *)
Lemma tids_step (ps ps' : list proc) (n n' : Z) (i0 j0 : nat) :
  tids_unique ps -> (forall i j p t, ps !! i = Some p -> threads p !! j = Some t -> tid t < n) ->
  0 < n -> n <= n' ->
  (forall i j p' t', ps' !! i = Some p' -> threads p' !! j = Some t' ->
     tid t' = 0 \/ (i = i0 /\ j = j0 /\ tid t' = n /\ n < n') \/
     (exists p t, ps !! i = Some p /\ threads p !! j = Some t /\ tid t = tid t')) ->
  tids_unique ps' /\ forall i j p' t', ps' !! i = Some p' -> threads p' !! j = Some t' -> tid t' < n'.
Proof.
  intros Hu Hb Hn Hn' Hc. split.
  - intros i1 j1 p1 t1 i2 j2 p2 t2 H1 T1 H2 T2 Hz Heq.
    destruct (Hc _ _ _ _ H1 T1) as [E1|[(-> & -> & E1 & _)|(q1 & u1 & Q1 & U1 & E1)]]; [contradiction| |];
    destruct (Hc _ _ _ _ H2 T2) as [E2|[(-> & -> & E2 & _)|(q2 & u2 & Q2 & U2 & E2)]];
    first [ lia | (split; reflexivity) | (pose proof (Hb _ _ _ _ Q2 U2); lia)
          | (pose proof (Hb _ _ _ _ Q1 U1); lia)
          | (apply (Hu i1 j1 q1 u1 i2 j2 q2 u2); auto; congruence) ].
  - intros i j p' t' H T.
    destruct (Hc _ _ _ _ H T) as [E|[(_ & _ & E & Hl)|(q & u & Q & U & E)]]; [lia|lia|].
    pose proof (Hb _ _ _ _ Q U). lia.
Qed.

(** The same when only the slot [i0] of the table changes. *)
Lemma tids_slot (ps : list proc) (i0 : nat) (p p' : proc) (n n' : Z) (j0 : nat) :
  tids_unique ps -> (forall i j p t, ps !! i = Some p -> threads p !! j = Some t -> tid t < n) ->
  0 < n -> n <= n' -> ps !! i0 = Some p ->
  (forall j t', threads p' !! j = Some t' ->
     tid t' = 0 \/ (j = j0 /\ tid t' = n /\ n < n') \/
     (exists t, threads p !! j = Some t /\ tid t = tid t')) ->
  tids_unique (<[i0 := p']> ps) /\
  forall i j q t', <[i0 := p']> ps !! i = Some q -> threads q !! j = Some t' -> tid t' < n'.
Proof.
  intros Hu Hb Hn Hn' Hp Hc. apply (tids_step ps _ n n' i0 j0 Hu Hb Hn Hn').
  intros i j q t' Hq T. rewrite list_lookup_insert_Some in Hq.
  destruct Hq as [(<- & <- & _)|(_ & Hq)].
  - destruct (Hc j t' T) as [E|[(-> & E & Hl)|(t & T0 & E)]]; [left; exact E|right; left; auto|].
    right; right. exists p, t. auto.
  - right; right. exists q, t'. auto.
Qed.

(** [allocproc] keeps thread ids unique and below [nexttid] as long as
    the [int] counter [nexttid] has not reached [INT_MAX]: the new
    process's thread 0 receives the current [nexttid], which [nexttid++]
    then increases by one without wrapping. *)
Theorem allocproc_tids (k : kstate) (ka : Z) :
  tids_unique (ptable k) -> tids_below k -> 0 < nexttid k -> nexttid k < 2 ^ 31 - 1 ->
  tids_unique (ptable (fst (allocproc k ka))) /\ tids_below (fst (allocproc k ka)) /\
  nexttid k <= nexttid (fst (allocproc k ka)).
Proof.
  intros Hu Hb Hn Hmax. unfold allocproc.
  assert (W : wrap32 (nexttid k + 1) = nexttid k + 1) by (apply wrap32_range; lia).
  destruct (find_unused (ptable k)) as [i|] eqn:F; [|simpl; split; [exact Hu|split; [exact Hb|lia]]].
  destruct (ptable k !! i) as [p|] eqn:Hp.
  2: { exfalso. revert F Hp. generalize (ptable k). clear. intros ps. revert i.
       induction ps as [|q ps IH]; intros i F Hp; simpl in F; [discriminate|].
       destruct (procstate_eqb (state q) UNUSED); [injection F as <-; discriminate|].
       destruct (find_unused ps) as [i'|] eqn:E; simpl in F; [|discriminate].
       injection F as <-. exact (IH i' eq_refl Hp). }
  rewrite (nth_lookup_Some _ _ _ _ Hp).
  set (p1 := upd_thread (set_tidx (set_pid (set_state p EMBRYO) (nextpid k)) 0) 0
               (fun t => set_tid (set_tstate t EMBRYO) (nexttid k))).
  pose proof (mlfq_append_threads (kmlfq k) i p1 0) as (T2 & _ & _).
  destruct (mlfq_append (kmlfq k) i p1 0) as [[r m1] p2]. cbn [snd] in T2.
  assert (Hc : forall p', threads p' = threads p2 \/
                 threads p' = <[0%nat := set_kstack (nth 0 (threads p2) dummy_thread) ka]> (threads p2) \/
                 threads p' = <[0%nat := set_tstate (nth 0 (threads p2) dummy_thread) UNUSED]> (threads p2) ->
    forall j t', threads p' !! j = Some t' ->
      tid t' = 0 \/ (j = 0%nat /\ tid t' = nexttid k /\ nexttid k < nexttid k + 1) \/
      (exists t, threads p !! j = Some t /\ tid t = tid t')).
  { intros p' Hp' j t' T.
    assert (H2 : threads p2 !! j = Some t' \/ (j = 0%nat /\ exists t2, threads p2 !! 0%nat = Some t2 /\ tid t' = tid t2)).
    { destruct Hp' as [E|E']; [rewrite E in T; left; exact T|].
      assert (Hx : exists x, threads p' = <[0%nat := x]> (threads p2) /\
                              tid x = tid (nth 0 (threads p2) dummy_thread))
        by (destruct E' as [E|E]; eexists; (split; [exact E|reflexivity])).
      destruct Hx as (x & E & Ex). rewrite E in T.
      apply list_lookup_insert_Some in T as [(<- & <- & Hl)|(_ & T)]; [|left; exact T].
      right. split; [reflexivity|]. exists (nth 0 (threads p2) dummy_thread). split; [|exact Ex].
      destruct (nth_lookup_or_length (threads p2) 0 dummy_thread) as [E0|E0]; [exact E0|lia]. }
    rewrite T2 in H2. unfold p1 in H2.
    destruct H2 as [H2|(-> & t2 & H2 & E)].
    - rewrite upd_thread_lookup in H2. cbn [threads set_tidx set_pid set_state] in H2.
      destruct (decide (j = 0%nat)) as [->|Hj].
      + destruct (threads p !! 0%nat) as [t0|]; simpl in H2; [|discriminate].
        injection H2 as <-. right; left. simpl. split; [reflexivity|]. split; [reflexivity|lia].
      + right; right. exists t'. auto.
    - rewrite upd_thread_lookup in H2. cbn [threads set_tidx set_pid set_state] in H2.
      destruct (decide (0%nat = 0%nat)) as [_|n]; [|congruence].
      destruct (threads p !! 0%nat) as [t0|]; simpl in H2; [|discriminate].
      injection H2 as <-. right; left. rewrite E. simpl. split; [reflexivity|]. split; [reflexivity|lia]. }
  destruct (ka =? 0); cbn [fst ptable set_proc nexttid]; unfold tids_below; cbn [ptable set_proc nexttid]; rewrite W;
    match goal with |- tids_unique (<[_ := ?P]> _) /\ _ =>
      destruct (tids_slot (ptable k) i p P (nexttid k) (nexttid k + 1) 0 Hu Hb Hn ltac:(lia) Hp
                  (Hc P ltac:(first [right; right; reflexivity | right; left; reflexivity]))) as [U B]
    end; (split; [exact U|]); (split; [exact B|]); simpl; lia.
Qed.

Lemma find_unused_thread_some (ts : list thread) (i : nat) :
  find_unused_thread ts = Some i ->
  exists t, ts !! i = Some t /\ tstate t = UNUSED /\
    forall j t', (j < i)%nat -> ts !! j = Some t' -> tstate t' <> UNUSED.
Proof.
  revert i. induction ts as [|t ts IH]; intros i H; simpl in H; [discriminate|].
  destruct (procstate_eqb (tstate t) UNUSED) eqn:E.
  - injection H as <-. apply procstate_eqb_true in E. exists t. split; [reflexivity|]. split; [exact E|].
    intros j t' Hj. lia.
  - apply procstate_eqb_false in E.
    destruct (find_unused_thread ts) as [i'|] eqn:F; simpl in H; [|discriminate]. injection H as <-.
    destruct (IH i' eq_refl) as (u & H1 & H2 & H3). exists u. split; [exact H1|]. split; [exact H2|].
    intros [|j] t' Hj Ht; simpl in Ht; [congruence|]. apply (H3 j t'); [lia|exact Ht].
Qed.

Lemma find_unused_thread_none (ts : list thread) :
  find_unused_thread ts = None -> forall j t, ts !! j = Some t -> tstate t <> UNUSED.
Proof.
  induction ts as [|t ts IH]; intros H j u Hu; simpl in H.
  - rewrite lookup_nil in Hu. discriminate.
  - destruct (procstate_eqb (tstate t) UNUSED) eqn:E; [discriminate|].
    destruct (find_unused_thread ts) eqn:F; [discriminate|].
    destruct j as [|j]; simpl in Hu; [injection Hu as <-; apply procstate_eqb_false; exact E|exact (IH eq_refl j u Hu)].
Qed.

Lemma upd_thread_at (p : proc) (ti : nat) (t : thread) (f : thread -> thread) :
  threads p !! ti = Some t -> threads (upd_thread p ti f) = <[ti := f t]> (threads p).
Proof. intros H. unfold upd_thread; simpl. rewrite (nth_lookup_Some _ _ _ _ H). reflexivity. Qed.

Lemma thread_create_cases (k : kstate) (pi : nat) (p : proc) (sz ka au : Z) :
  ptable k !! pi = Some p -> length (ustacks p) = length (threads p) ->
  let '(r, w, k', sz') := thread_create k pi sz ka au in
  (find_unused_thread (threads p) = None /\ r = -1 /\ w = None /\ k' = k /\ sz' = sz) \/
  (exists ti t p', find_unused_thread (threads p) = Some ti /\ threads p !! ti = Some t /\
     nexttid k' = wrap32 (nexttid k + 1) /\ kmlfq k' = kmlfq k /\ nextpid k' = nextpid k /\
     ptable k' = <[pi := p']> (ptable k) /\
     pid p' = pid p /\ state p' = state p /\ killed p' = killed p /\ tidx p' = tidx p /\
     mlfq p' = mlfq p /\ parent p' = parent p /\
     (forall j, j <> ti -> threads p' !! j = threads p !! j) /\
     ((r = -1 /\ w = None /\ sz' = sz /\
       exists t', threads p' !! ti = Some t' /\ tstate t' = UNUSED /\ tid t' = 0) \/
      (r = 0 /\ w = Some (nexttid k) /\
       exists t', threads p' !! ti = Some t' /\ tstate t' = RUNNABLE /\ tid t' = nexttid k /\
         retval t' = 0 /\ kstack t' <> 0 /\ kstacks p' !! ti = Some (kstack t') /\
         exists u, ustacks p' !! ti = Some u /\ u <> 0))).
Proof.
  intros Hp Hlen. unfold thread_create. rewrite (nth_lookup_Some _ _ _ _ Hp).
  destruct (find_unused_thread (threads p)) as [ti|] eqn:F; [|left; auto].
  destruct (find_unused_thread_some _ _ F) as (t & Ht & Hun & _).
  assert (Hti : (ti < length (threads p))%nat) by (eapply lookup_lt_Some; exact Ht).
  cbv zeta.
  set (p1 := upd_thread p ti (fun t => set_tid t (nexttid k))).
  assert (T1 : threads p1 !! ti = Some (set_tid t (nexttid k))).
  { unfold p1. rewrite (upd_thread_at _ _ _ _ Ht). apply list_lookup_insert_eq. exact Hti. }
  assert (T1' : forall j, j <> ti -> threads p1 !! j = threads p !! j).
  { intros j Hj. unfold p1. rewrite upd_thread_lookup. destruct (decide (j = ti)); [congruence|reflexivity]. }
  change (kstacks p1) with (kstacks p). change (ustacks p1) with (ustacks p).
  assert (Hlt : forall (l : list Z), (nth ti l 0 =? 0) = false -> l !! ti = Some (nth ti l 0)).
  { intros l E. apply Z.eqb_neq in E. destruct (nth_lookup_or_length l ti 0) as [E'|E']; [exact E'|].
    rewrite nth_overflow in E by lia. congruence. }
  destruct (nth ti (kstacks p) 0 =? 0) eqn:K0; cbv beta iota;
    [change (kstacks (set_kstacks p1 (<[ti:=ka]> (kstacks p)))) with (<[ti:=ka]> (kstacks p));
     change (ustacks (set_kstacks p1 (<[ti:=ka]> (kstacks p)))) with (ustacks p);
     set (p2 := set_kstacks p1 (<[ti:=ka]> (kstacks p))); set (KS := <[ti:=ka]> (kstacks p))
    |change (kstacks p1) with (kstacks p); set (p2 := p1); set (KS := kstacks p)];
  (assert (T2 : threads p2 = threads p1) by reflexivity);
  (destruct (nth ti KS 0 =? 0) eqn:K1;
   [|change (ustacks (upd_thread p2 ti (fun t => set_kstack t (nth ti KS 0)))) with (ustacks p);
     destruct (nth ti (ustacks p) 0 =? 0) eqn:U0; simpl negb; cbv iota;
     [destruct (au =? 0) eqn:A|]]);
  cbv beta iota. all: lazymatch goal with |- _ \/ _ => idtac | |- ?g => idtac "BAD" g end. all: right; exists ti, t; eexists.
  all: (split; [reflexivity|]); (split; [exact Ht|]); do 3 (split; [reflexivity|]); (split; [reflexivity|]).
  all: do 6 (split; [reflexivity|]).
  all: split;
    [intros j Hj; rewrite <- (T1' j Hj);
     repeat (rewrite upd_thread_lookup; destruct (decide (j = ti)) as [E|_]; [congruence|];
             cbn [threads set_ustacks set_kstacks]);
     rewrite ?T2; reflexivity|].
  all: repeat (rewrite upd_thread_lookup; destruct (decide (ti = ti)) as [_|E]; [|congruence];
               cbn [threads set_ustacks set_kstacks]).
  all: rewrite ?T2, ?T1; cbn [fmap option_fmap option_map].
  all: first
    [ (left; split; [reflexivity|]; split; [reflexivity|]; split; [reflexivity|];
       eexists; split; [reflexivity|]; split; reflexivity)
    | (right; split; [reflexivity|]; split; [reflexivity|];
       eexists; split; [reflexivity|]; cbn [tstate tid retval kstack set_tstate set_tid set_retval set_kstack];
       split; [reflexivity|]; split; [reflexivity|]; split; [reflexivity|];
       split; [apply Z.eqb_neq; exact K1|]; split; [exact (Hlt KS K1)|])
    | idtac ].
  all: cbn [ustacks upd_thread set_threads set_ustacks].
  all: first
    [ (exists (nth ti (ustacks p) 0); split;
       [apply Hlt; exact U0|apply Z.eqb_neq; exact U0])
    | (exists au; split; [apply list_lookup_insert_eq; lia|apply Z.eqb_neq; exact A]) ].
Qed.

(** [thread_create] takes the first [UNUSED] thread of the caller. With none
    it returns -1 and changes nothing. Otherwise it always consumes a thread
    id ([nexttid++] on an [int], which wraps at [INT_MAX]) and leaves the
    other threads and the process fields untouched; on a
    failed stack allocation the slot is [UNUSED] again with [tid] 0 and the
    result is -1, on success the thread is [RUNNABLE] with the old [nexttid]
    as its id, return value 0, and nonzero kernel and user stacks recorded in
    [kstacks] and [ustacks]. *)
Theorem thread_create_result (k : kstate) (pi : nat) (p : proc) (sz ka au : Z) :
  ptable k !! pi = Some p -> length (ustacks p) = length (threads p) ->
  let '(r, w, k', sz') := thread_create k pi sz ka au in
  ((forall j t, threads p !! j = Some t -> tstate t <> UNUSED) /\
     r = -1 /\ w = None /\ k' = k /\ sz' = sz) \/
  (exists ti t p', threads p !! ti = Some t /\ tstate t = UNUSED /\
     (forall j t', (j < ti)%nat -> threads p !! j = Some t' -> tstate t' <> UNUSED) /\
     nexttid k' = wrap32 (nexttid k + 1) /\ kmlfq k' = kmlfq k /\ nextpid k' = nextpid k /\
     ptable k' = <[pi := p']> (ptable k) /\
     pid p' = pid p /\ state p' = state p /\ killed p' = killed p /\ tidx p' = tidx p /\
     mlfq p' = mlfq p /\ parent p' = parent p /\
     (forall j, j <> ti -> threads p' !! j = threads p !! j) /\
     ((r = -1 /\ w = None /\ sz' = sz /\
       exists t', threads p' !! ti = Some t' /\ tstate t' = UNUSED /\ tid t' = 0) \/
      (r = 0 /\ w = Some (nexttid k) /\
       exists t', threads p' !! ti = Some t' /\ tstate t' = RUNNABLE /\ tid t' = nexttid k /\
         retval t' = 0 /\ kstack t' <> 0 /\ kstacks p' !! ti = Some (kstack t') /\
         exists u, ustacks p' !! ti = Some u /\ u <> 0))).
Proof.
  intros Hp Hlen. pose proof (thread_create_cases k pi p sz ka au Hp Hlen) as C.
  destruct (thread_create k pi sz ka au) as [[[r w] k'] sz'].
  destruct C as [(F & R)|(ti & t & p' & F & R)].
  - left. split; [exact (find_unused_thread_none _ F)|exact R].
  - right. destruct (find_unused_thread_some _ _ F) as (t0 & Ht0 & Hu & Hb).
    exists ti, t, p'. destruct R as (Ht & R). rewrite Ht in Ht0. injection Ht0 as <-.
    split; [exact Ht|]. split; [exact Hu|]. split; [exact Hb|]. exact R.
Qed.

(** [thread_create] keeps thread ids unique and below [nexttid] as long as
    the [int] counter [nexttid] has not reached [INT_MAX]. *)
Theorem thread_create_tids (k : kstate) (pi : nat) (p : proc) (sz ka au : Z) :
  tids_unique (ptable k) -> tids_below k -> 0 < nexttid k -> nexttid k < 2 ^ 31 - 1 ->
  ptable k !! pi = Some p -> length (ustacks p) = length (threads p) ->
  match thread_create k pi sz ka au with
  | (_, _, k', _) => tids_unique (ptable k') /\ tids_below k'
  end.
Proof.
  intros Hu Hb Hn Hmax Hp Hlen.
  assert (W : wrap32 (nexttid k + 1) = nexttid k + 1) by (apply wrap32_range; lia). pose proof (thread_create_cases k pi p sz ka au Hp Hlen) as C.
  destruct (thread_create k pi sz ka au) as [[[r w] k'] sz'].
  destruct C as [(_ & _ & _ & -> & _)|(ti & t & p' & _ & Ht & Hnt & _ & _ & Hpt & _ & _ & _ & _ & _ & _ & Hj & R)];
    [split; assumption|].
  assert (Hc : forall j t', threads p' !! j = Some t' ->
     tid t' = 0 \/ (j = ti /\ tid t' = nexttid k /\ nexttid k < nexttid k + 1) \/
     (exists t, threads p !! j = Some t /\ tid t = tid t')).
  { intros j t' T. destruct (decide (j = ti)) as [->|Hne].
    - destruct R as [(_ & _ & _ & t1 & T1 & _ & E)|(_ & _ & t1 & T1 & _ & E & _)];
        rewrite T in T1; injection T1 as <-; [left; exact E|right; left; split; [reflexivity|lia]].
    - right; right. exists t'. split; [rewrite <- (Hj j Hne); exact T|reflexivity]. }
  destruct (tids_slot (ptable k) pi p p' (nexttid k) (nexttid k + 1) ti Hu Hb Hn ltac:(lia) Hp Hc) as [U B].
  unfold tids_below. rewrite Hpt, Hnt, W. split; [exact U|exact B].
Qed.

(** ** wait *)

Lemma nth_of_lookup {A} (l1 l2 : list A) (j : nat) (d : A) :
  l1 !! j = l2 !! j -> nth j l1 d = nth j l2 d.
Proof. intros E. rewrite !nth_lookup, E. reflexivity. Qed.

Lemma free_slot_fields (p : proc) (off : nat) :
  pid (free_slot p off) = pid p /\ state (free_slot p off) = state p /\
  killed (free_slot p off) = killed p /\ tidx (free_slot p off) = tidx p /\
  mlfq (free_slot p off) = mlfq p /\ parent (free_slot p off) = parent p.
Proof. unfold free_slot. destruct (negb _); repeat split. Qed.

Lemma free_slot_threads (p : proc) (off j : nat) :
  threads (free_slot p off) !! j =
  if decide (j = off) then (fun t => set_tid (set_tstate (set_kstack t 0) UNUSED) 0) <$> threads p !! off
  else threads p !! j.
Proof. unfold free_slot. rewrite upd_thread_lookup. destruct (negb _); reflexivity. Qed.

Lemma free_slot_kstacks (p : proc) (off j : nat) :
  kstacks (free_slot p off) !! j =
  if decide (j = off) then (fun _ => 0) <$> kstacks p !! j else kstacks p !! j.
Proof.
  unfold free_slot. cbn [kstacks upd_thread set_threads].
  destruct (nth off (kstacks p) 0 =? 0) eqn:E; simpl negb; cbv iota; cbn [kstacks set_ustacks set_kstacks].
  - destruct (decide (j = off)) as [->|]; [|reflexivity].
    apply Z.eqb_eq in E. destruct (nth_lookup_or_length (kstacks p) off 0) as [L|L].
    + rewrite L, E. reflexivity.
    + rewrite (proj2 (lookup_ge_None _ _)) by lia. reflexivity.
  - apply Z.eqb_neq in E. destruct (decide (j = off)) as [->|Hne].
    + destruct (nth_lookup_or_length (kstacks p) off 0) as [L|L]; [|rewrite nth_overflow in E by lia; congruence].
      rewrite L. apply list_lookup_insert_eq. eapply lookup_lt_Some; exact L.
    + apply list_lookup_insert_ne. congruence.
Qed.

Lemma free_slot_ustacks (p : proc) (off j : nat) :
  ustacks (free_slot p off) !! j =
  if decide (j = off) then
    (if nth off (kstacks p) 0 =? 0 then ustacks p !! j else (fun _ => 0) <$> ustacks p !! j)
  else ustacks p !! j.
Proof.
  unfold free_slot. cbn [ustacks upd_thread set_threads].
  destruct (nth off (kstacks p) 0 =? 0) eqn:E; simpl negb; cbv iota; cbn [ustacks set_ustacks set_kstacks].
  - destruct (decide (j = off)); reflexivity.
  - destruct (decide (j = off)) as [->|Hne].
    + destruct (ustacks p !! off) as [u|] eqn:U.
      * apply list_lookup_insert_eq. eapply lookup_lt_Some; exact U.
      * apply lookup_ge_None in U. rewrite list_insert_ge by lia. apply lookup_ge_None. lia.
    + apply list_lookup_insert_ne. congruence.
Qed.

Lemma free_seq_spec (a n : nat) (p : proc) :
  let p' := fold_left free_slot (seq a n) p in
  (pid p' = pid p /\ state p' = state p /\ killed p' = killed p /\ tidx p' = tidx p /\
   mlfq p' = mlfq p /\ parent p' = parent p) /\
  forall j,
    threads p' !! j = (if decide (a <= j < a + n)%nat
                       then (fun t => set_tid (set_tstate (set_kstack t 0) UNUSED) 0) <$> threads p !! j
                       else threads p !! j) /\
    kstacks p' !! j = (if decide (a <= j < a + n)%nat then (fun _ => 0) <$> kstacks p !! j
                       else kstacks p !! j) /\
    ustacks p' !! j = (if decide (a <= j < a + n)%nat then
                         (if nth j (kstacks p) 0 =? 0 then ustacks p !! j else (fun _ => 0) <$> ustacks p !! j)
                       else ustacks p !! j).
Proof.
  revert a p. induction n as [|n IH]; intros a p; cbv zeta.
  - simpl. split; [repeat split|]. intros j. destruct (decide _); [lia|auto].
  - cbn [seq fold_left]. destruct (IH (S a) (free_slot p a)) as (F & L). cbv zeta in F, L.
    pose proof (free_slot_fields p a) as F0.
    split; [intuition congruence|]. intros j. destruct (L j) as (L1 & L2 & L3).
    rewrite L1, L2, L3, free_slot_threads, free_slot_kstacks, free_slot_ustacks.
    destruct (decide (j = a)) as [->|Hne].
    + repeat case_decide; try lia; intuition auto.
    + assert (N : nth j (kstacks (free_slot p a)) 0 = nth j (kstacks p) 0).
      { apply nth_of_lookup. rewrite free_slot_kstacks. destruct (decide (j = a)); [contradiction|reflexivity]. }
      rewrite N. repeat case_decide; try lia; intuition auto.
Qed.

Lemma find_zombie_child_some (ps : list proc) (cur i : nat) (p : proc) :
  ps !! i = Some p -> parent p = Some cur -> state p = ZOMBIE ->
  (forall j q, (j < i)%nat -> ps !! j = Some q -> parent q = Some cur -> state q <> ZOMBIE) ->
  find_zombie_child ps cur = Some i.
Proof.
  revert i. induction ps as [|q ps IH]; intros i Hp Hpar Hst Hb; [rewrite lookup_nil in Hp; discriminate|].
  simpl. destruct i as [|i].
  - simpl in Hp. injection Hp as <-. rewrite Hpar, Nat.eqb_refl, Hst. reflexivity.
  - destruct (match parent q with Some c => Nat.eqb c cur | None => false end && procstate_eqb (state q) ZOMBIE) eqn:E.
    + exfalso. apply andb_true_iff in E as [E1 E2]. apply procstate_eqb_true in E2.
      destruct (parent q) as [c|] eqn:Pq; [|discriminate]. apply Nat.eqb_eq in E1. subst c.
      exact (Hb 0%nat q ltac:(lia) eq_refl Pq E2).
    + rewrite (IH i Hp Hpar Hst); [reflexivity|].
      intros j q' Hj. exact (Hb (S j) q' ltac:(lia)).
Qed.

Lemma find_zombie_child_none (ps : list proc) (cur : nat) :
  (forall j q, ps !! j = Some q -> parent q = Some cur -> state q <> ZOMBIE) ->
  find_zombie_child ps cur = None.
Proof.
  induction ps as [|q ps IH]; intros Hb; [reflexivity|]. simpl.
  destruct (match parent q with Some c => Nat.eqb c cur | None => false end && procstate_eqb (state q) ZOMBIE) eqn:E.
  - exfalso. apply andb_true_iff in E as [E1 E2]. apply procstate_eqb_true in E2.
    destruct (parent q) as [c|] eqn:Pq; [|discriminate]. apply Nat.eqb_eq in E1. subst c.
    exact (Hb 0%nat q eq_refl Pq E2).
  - rewrite IH; [reflexivity|]. intros j q'. exact (Hb (S j) q').
Qed.

Lemma has_child_spec (ps : list proc) (cur : nat) :
  has_child ps cur = true <-> exists i p, ps !! i = Some p /\ parent p = Some cur.
Proof.
  unfold has_child. rewrite existsb_exists. split.
  - intros (p & Hin & Hp). apply list_elem_of_In, list_elem_of_lookup in Hin as (i & Hi).
    exists i, p. split; [exact Hi|]. destruct (parent p) as [c|]; [|discriminate].
    apply Nat.eqb_eq in Hp. congruence.
  - intros (i & p & Hi & Hp). exists p. split.
    + apply list_elem_of_In, list_elem_of_lookup. exists i. exact Hi.
    + rewrite Hp. apply Nat.eqb_refl.
Qed.

(** When no child of [cur] is a ZOMBIE, [wait] leaves the state unchanged:
    it sleeps if [cur] has a child and is not killed, and otherwise
    returns -1. *)
Theorem wait_no_zombie (cfg : config) (k : kstate) (cur : nat) (c : proc) :
  ptable k !! cur = Some c ->
  (forall j q, ptable k !! j = Some q -> parent q = Some cur -> state q <> ZOMBIE) ->
  ((exists i p, ptable k !! i = Some p /\ parent p = Some cur) /\ killed c = 0 /\
     wait cfg k cur = Some (WaitSleep, k)) \/
  (((forall i p, ptable k !! i = Some p -> parent p <> Some cur) \/ killed c <> 0) /\
     wait cfg k cur = Some (WaitFail, k)).
Proof.
  intros Hc Hz. unfold wait. rewrite (find_zombie_child_none _ _ Hz), (nth_lookup_Some _ _ _ _ Hc).
  destruct (has_child (ptable k) cur) eqn:H; destruct (killed c =? 0) eqn:K; simpl.
  - left. split; [apply has_child_spec; exact H|]. split; [apply Z.eqb_eq; exact K|reflexivity].
  - right. split; [right; apply Z.eqb_neq; exact K|reflexivity].
  - right. split; [|reflexivity]. left. intros i p Hi Hp.
    assert (has_child (ptable k) cur = true) by (apply has_child_spec; eauto). congruence.
  - right. split; [right; apply Z.eqb_neq; exact K|reflexivity].
Qed.

(** [wait] reaps the first ZOMBIE child [i] of [cur] in table order: it
    returns the child's pid, frees its slot (pid 0, no parent, killed 0,
    [UNUSED]), marks every thread [UNUSED] with [tid] 0 and no kernel stack,
    zeroes the [kstacks] array, zeroes [ustacks] only where a kernel stack
    was present, and removes the child from the scheduler with
    [mlfq_delete]; [None] is an out-of-range MLFQ position. *)
Theorem wait_reap (cfg : config) (k : kstate) (cur i : nat) (p : proc) :
  ptable k !! i = Some p -> parent p = Some cur -> state p = ZOMBIE ->
  (forall j q, (j < i)%nat -> ptable k !! j = Some q -> parent q = Some cur -> state q <> ZOMBIE) ->
  length (threads p) = nthread cfg -> length (kstacks p) = nthread cfg ->
  length (ustacks p) = nthread cfg ->
  exists p', wait cfg k cur =
    (fun m' => (WaitReaped (pid p), mkK (<[i := p']> (ptable k)) m' (nextpid k) (nexttid k)))
      <$> mlfq_delete cfg (kmlfq k) p /\
    pid p' = 0 /\ parent p' = None /\ killed p' = 0 /\ state p' = UNUSED /\
    mlfq p' = mlfq p /\ tidx p' = tidx p /\
    threads p' = map (fun t => set_tid (set_tstate (set_kstack t 0) UNUSED) 0) (threads p) /\
    kstacks p' = map (fun _ => 0) (kstacks p) /\
    ustacks p' = zip_with (fun ks us => if ks =? 0 then us else 0) (kstacks p) (ustacks p).
Proof.
  intros Hp Hpar Hst Hb LT LK LU. unfold wait. rewrite (find_zombie_child_some _ _ _ _ Hp Hpar Hst Hb).
  rewrite (nth_lookup_Some _ _ _ _ Hp).
  destruct (free_seq_spec 0 (nthread cfg) p) as (F & L). cbv zeta in F, L.
  set (p1 := set_state (set_killed (set_parent (set_pid (free_threads cfg p) 0) None) 0) UNUSED).
  assert (M : mlfq p1 = mlfq p) by (unfold p1, free_threads; exact (proj1 (proj2 (proj2 (proj2 (proj2 F)))))).
  exists p1. split.
  { unfold mlfq_delete, stride_delete. rewrite M. reflexivity. }
  unfold p1 at 1 2 3 4. cbn [pid parent killed state set_state set_killed set_parent set_pid].
  split; [reflexivity|]. split; [reflexivity|]. split; [reflexivity|]. split; [reflexivity|].
  split; [exact M|]. split; [unfold p1, free_threads; cbn [tidx set_state set_killed set_parent set_pid]; tauto|].
  unfold p1, free_threads; cbn [threads kstacks ustacks set_state set_killed set_parent set_pid].
  split; [|split]; apply list_eq; intros j; destruct (L j) as (L1 & L2 & L3).
  - rewrite L1, list_lookup_fmap. destruct (decide _); [reflexivity|].
    rewrite !(proj2 (lookup_ge_None _ _)); rewrite ?length_map; [reflexivity|lia..].
  - rewrite L2, list_lookup_fmap. destruct (decide _); [reflexivity|].
    rewrite !(proj2 (lookup_ge_None _ _)); rewrite ?length_map; [reflexivity|lia..].
  - rewrite L3, lookup_zip_with. destruct (decide _) as [D|D].
    + destruct (nth_lookup_or_length (kstacks p) j 0) as [E|E]; [|lia]. rewrite E.
      destruct (ustacks p !! j) as [u|] eqn:U; [|apply lookup_ge_None in U; lia].
      simpl. destruct (nth j (kstacks p) 0 =? 0); reflexivity.
    + rewrite (proj2 (lookup_ge_None (kstacks p) j)) by lia.
      rewrite (proj2 (lookup_ge_None (ustacks p) j)) by lia. reflexivity.
Qed.

(** ** next_thread *)

Lemma nt_scan_seg (cfg : config) (ts : list thread) (t a n fuel : nat) :
  (a + n <= nthread cfg)%nat -> (t < a \/ a + n <= t)%nat -> (n < fuel)%nat ->
  (exists pre j post, seq a n = pre ++ j :: post /\
     (forall x, In x pre -> tstate (nth x ts dummy_thread) <> RUNNABLE) /\
     tstate (nth j ts dummy_thread) = RUNNABLE /\ nt_scan cfg ts t a fuel = Some (Some j)) \/
  ((forall x, In x (seq a n) -> tstate (nth x ts dummy_thread) <> RUNNABLE) /\
   nt_scan cfg ts t a fuel = nt_scan cfg ts t (a + n) (fuel - n)).
Proof.
  revert a fuel. induction n as [|n IH]; intros a fuel Hn Ht Hf.
  - right. split; [intros x []|]. rewrite Nat.add_0_r, Nat.sub_0_r. reflexivity.
  - destruct fuel as [|f]; [lia|]. cbn [nt_scan seq].
    replace (Nat.eqb a (nthread cfg)) with false by (symmetry; apply Nat.eqb_neq; lia).
    replace (Nat.eqb a t) with false by (symmetry; apply Nat.eqb_neq; lia).
    destruct (procstate_eqb (tstate (nth a ts dummy_thread)) RUNNABLE) eqn:R.
    + left. exists [], a, (seq (S a) n). split; [reflexivity|]. split; [intros x []|].
      split; [apply procstate_eqb_true; exact R|reflexivity].
    + apply procstate_eqb_false in R.
      destruct (IH (S a) f ltac:(lia) ltac:(lia) ltac:(lia)) as [(pre & j & post & E & P & J & S)|(P & S)].
      * left. exists (a :: pre), j, post. split; [rewrite E; reflexivity|].
        split; [intros x [<-|Hx]; [exact R|exact (P x Hx)]|]. split; [exact J|exact S].
      * right. split; [intros x [<-|Hx]; [exact R|exact (P x Hx)]|].
        rewrite S. f_equal; lia.
Qed.

Lemma nt_scan_wrap (cfg : config) (ts : list thread) (t f : nat) :
  (t < nthread cfg)%nat -> nt_scan cfg ts t (nthread cfg) (S f) = nt_scan cfg ts t 0 (S f).
Proof.
  intros Ht. cbn [nt_scan]. rewrite Nat.eqb_refl.
  replace (Nat.eqb 0 (nthread cfg)) with false by (symmetry; apply Nat.eqb_neq; lia). reflexivity.
Qed.

Lemma nt_scan_stop (cfg : config) (ts : list thread) (t f : nat) :
  (t < nthread cfg)%nat -> nt_scan cfg ts t t (S f) = Some None.
Proof.
  intros Ht. cbn [nt_scan].
  replace (Nat.eqb t (nthread cfg)) with false by (symmetry; apply Nat.eqb_neq; lia). rewrite Nat.eqb_refl. reflexivity.
Qed.

Lemma nth_lookup_len {A} (l : list A) (x : nat) (d : A) :
  (x < length l)%nat -> l !! x = Some (nth x l d).
Proof. intros H. destruct (nth_lookup_or_length l x d) as [E|E]; [exact E|lia]. Qed.

(** [next_thread] on a process whose current thread [t] is in range
    searches the other threads circularly, [t+1], ..., [NTHREAD-1], [0],
    ..., [t-1]. At the first RUNNABLE one [j] it makes [t] RUNNABLE, [j]
    RUNNING and [j] the current thread. If no other thread is RUNNABLE the
    process is unchanged: it keeps running when [t] is RUNNING, and
    otherwise calls [sched()]. *)
Theorem next_thread_spec (cfg : config) (p : proc) (t : nat) (tt : thread) :
  tidx p = Z.of_nat t -> (t < nthread cfg)%nat -> length (threads p) = nthread cfg ->
  threads p !! t = Some tt ->
  (exists pre j post tj, seq (S t) (nthread cfg - S t) ++ seq 0 t = pre ++ j :: post /\
     (forall x tx, In x pre -> threads p !! x = Some tx -> tstate tx <> RUNNABLE) /\
     threads p !! j = Some tj /\ tstate tj = RUNNABLE /\
     next_thread cfg p =
       Some (NTSwitch j, set_tidx (set_threads p (<[j := set_tstate tj RUNNING]>
                                    (<[t := set_tstate tt RUNNABLE]> (threads p)))) (Z.of_nat j))) \/
  ((forall x tx, x <> t -> threads p !! x = Some tx -> tstate tx <> RUNNABLE) /\
   ((tstate tt = RUNNING /\ next_thread cfg p = Some (NTStay, p)) \/
    (tstate tt <> RUNNING /\ next_thread cfg p = Some (NTSched, p)))).
Proof.
  intros Hti Hlt Hlen Htt. unfold next_thread. rewrite Hti, Nat2Z.id.
  set (N := nthread cfg) in *. set (ts := threads p).
  assert (Look : forall x, (x < N)%nat -> ts !! x = Some (nth x ts dummy_thread))
    by (intros x Hx; apply nth_lookup_len; unfold ts; lia).
  assert (Conv : forall l, (forall x, In x l -> (x < N)%nat) ->
            (forall x, In x l -> tstate (nth x ts dummy_thread) <> RUNNABLE) ->
            forall x tx, In x l -> ts !! x = Some tx -> tstate tx <> RUNNABLE).
  { intros l Hl H x tx Hx Tx. rewrite (Look x (Hl x Hx)) in Tx. injection Tx as <-. exact (H x Hx). }
  assert (Bnd : forall x, In x (seq (S t) (N - S t) ++ seq 0 t) -> (x < N)%nat /\ x <> t)
    by (intros x Hx; apply in_app_iff in Hx as [Hx|Hx]; apply in_seq in Hx; lia).
  assert (Sw : forall j tj, (j < N)%nat -> j <> t -> ts !! j = Some tj ->
     set_tidx (upd_thread (upd_thread p t (fun x => set_tstate x RUNNABLE)) j (fun x => set_tstate x RUNNING)) (Z.of_nat j) =
     set_tidx (set_threads p (<[j := set_tstate tj RUNNING]> (<[t := set_tstate tt RUNNABLE]> (threads p)))) (Z.of_nat j)).
  { intros j tj Hj Hne Tj. unfold upd_thread. cbn [threads set_threads].
    rewrite nth_insert_ne by congruence. fold ts.
    rewrite (nth_lookup_Some _ _ _ _ Tj), (nth_lookup_Some _ _ _ _ Htt). reflexivity. }
  destruct (nt_scan_seg cfg ts t (S t) (N - S t) (S N) ltac:(unfold N; lia) ltac:(lia) ltac:(lia))
    as [(pre & j & post & E & P & J & Sc)|(P1 & S1)].
  - left. assert (Hj : In j (seq (S t) (N - S t))) by (rewrite E; apply in_app_iff; right; left; reflexivity).
    apply in_seq in Hj.
    exists pre, j, (post ++ seq 0 t), (nth j ts dummy_thread).
    split; [rewrite E, <- app_assoc; reflexivity|].
    split; [apply Conv; [|exact P]; intros x Hx; assert (In x (seq (S t) (N - S t))) as Hx'
              by (rewrite E; apply in_app_iff; left; exact Hx); apply in_seq in Hx'; lia|].
    split; [apply Look; lia|]. split; [exact J|]. rewrite Sc. f_equal. f_equal. apply Sw; [lia|lia|apply Look; lia].
  - rewrite S1. replace (S N - (N - S t))%nat with (S (S t)) by lia.
    replace (S t + (N - S t))%nat with N by lia. rewrite nt_scan_wrap by exact Hlt.
    destruct (nt_scan_seg cfg ts t 0 t (S (S t)) ltac:(unfold N; lia) ltac:(lia) ltac:(lia))
      as [(pre & j & post & E & P & J & Sc)|(P2 & S2)].
    + left. assert (Hj : In j (seq 0 t)) by (rewrite E; apply in_app_iff; right; left; reflexivity).
      apply in_seq in Hj.
      exists (seq (S t) (N - S t) ++ pre), j, post, (nth j ts dummy_thread).
      split; [rewrite E, app_assoc; reflexivity|].
      split; [apply Conv; [intros x Hx; exact (proj1 (Bnd x ltac:(rewrite E; rewrite app_assoc; apply in_app_iff; left; exact Hx)))|];
              intros x Hx; apply in_app_iff in Hx as [Hx|Hx]; [exact (P1 x Hx)|exact (P x Hx)]|].
      split; [apply Look; lia|]. split; [exact J|]. rewrite Sc. f_equal. f_equal. apply Sw; [lia|lia|apply Look; lia].
    + right. rewrite S2. replace (S (S t) - t)%nat with 2%nat by lia. replace (0 + t)%nat with t by lia.
      rewrite nt_scan_stop by exact Hlt. split.
      * intros x tx Hne Tx. assert (Hx : (x < N)%nat) by (apply lookup_lt_Some in Tx; unfold ts in *; lia).
        refine (Conv (seq (S t) (N - S t) ++ seq 0 t) _ _ x tx _ Tx).
        -- intros y Hy; exact (proj1 (Bnd y Hy)).
        -- intros y Hy. apply in_app_iff in Hy as [Hy|Hy]; [exact (P1 y Hy)|exact (P2 y Hy)].
        -- apply in_app_iff. destruct (Nat.lt_ge_cases x t); [right|left]; apply in_seq; lia.
      * rewrite (nth_lookup_Some _ _ _ _ Htt).
        destruct (procstate_eqb (tstate tt) RUNNING) eqn:R; [left|right];
          [apply procstate_eqb_true in R|apply procstate_eqb_false in R]; split; auto.
Qed.

(** ** mlfq_boost *)

Lemma boost_top_some (q0 : list (option nat)) (top fuel t : nat) :
  boost_top q0 top fuel = Some t ->
  (top <= t < top + fuel)%nat /\ nth t q0 None = None /\
  forall y, (top <= y < t)%nat -> nth y q0 None <> None.
Proof.
  revert top. induction fuel as [|f IH]; intros top H; simpl in H; [discriminate|].
  destruct (nth top q0 None) as [x|] eqn:E.
  - destruct (IH (S top) H) as (B & N & P). split; [lia|]. split; [exact N|].
    intros y Hy. destruct (decide (y = top)) as [->|Hne]; [congruence|]. apply P. lia.
  - injection H as <-. split; [lia|]. split; [exact E|]. intros y Hy. lia.
Qed.

Lemma boost_top_none (q0 : list (option nat)) (top fuel : nat) :
  boost_top q0 top fuel = None -> forall y, (top <= y < top + fuel)%nat -> nth y q0 None <> None.
Proof.
  revert top. induction fuel as [|f IH]; intros top H y Hy; simpl in H; [lia|].
  destruct (nth top q0 None) as [x|] eqn:E; [|discriminate].
  destruct (decide (y = top)) as [->|Hne]; [congruence|]. apply (IH (S top) H). lia.
Qed.

Lemma entry_set2 (q : list (list (option nat))) (l j : nat) (x : option nat) (l' j' : nat) :
  (l < length q)%nat -> (j < length (nth l q []))%nat ->
  nth j' (nth l' (set2 q l j x) []) None = if decide (l' = l /\ j' = j) then x else nth j' (nth l' q []) None.
Proof.
  intros Hl Hj. rewrite nth_set2. destruct (decide (l = l')) as [<-|Hne].
  - destruct (decide (j' = j)) as [->|Hj'].
    + rewrite decide_True by auto. apply nth_insert_eq. exact Hj.
    + rewrite decide_False by tauto. apply nth_insert_ne. congruence.
  - rewrite decide_False by (intros [E _]; congruence). reflexivity.
Qed.

Lemma length_set2 (q : list (list (option nat))) (l j : nat) (x : option nat) :
  length (set2 q l j x) = length q.
Proof. unfold set2. apply length_insert. Qed.

Lemma length_nth_set2 (q : list (list (option nat))) (l j : nat) (x : option nat) (l' : nat) :
  length (nth l' (set2 q l j x) []) = length (nth l' q []).
Proof.
  rewrite nth_set2. destruct (decide (l = l')) as [<-|_]; [apply length_insert|reflexivity].
Qed.

Lemma lookup_set_mlfq_start (procs : list proc) (pi : nat) (p : proc) (t : nat) :
  procs !! pi = Some p ->
  <[pi := set_mlfq (nth pi procs dummy_proc) (mkInfo 0 (Z.of_nat t) 0 (start (mlfq (nth pi procs dummy_proc))))]> procs !! pi =
  Some (set_mlfq p (mkInfo 0 (Z.of_nat t) 0 (start (mlfq p)))).
Proof.
  intros H. rewrite (nth_lookup_Some _ _ _ _ H). apply list_lookup_insert_eq. eapply lookup_lt_Some; exact H.
Qed.

(** The outer loop of [mlfq_boost], one visited position at a time. *)
Lemma boost_loop_spec (cfg : config) (pos : list (nat * nat)) :
  forall procs q top procs' q',
  NoDup pos ->
  (forall l j, In (l, j) pos -> l <> 0%nat /\ (l < length q)%nat /\ (j < length (nth l q []))%nat) ->
  (0 < length q)%nat -> length (nth 0 q []) = nproc cfg ->
  (forall l j pi, nth j (nth l q []) None = Some pi -> (pi < length procs)%nat) ->
  boost_loop cfg procs q top pos = Some (procs', q') ->
  (forall l j, In (l, j) pos -> nth j (nth l q' []) None = None) /\
  (forall l j, l <> 0%nat -> ~ In (l, j) pos -> nth j (nth l q' []) None = nth j (nth l q []) None) /\
  (forall x pi, nth x (nth 0 q []) None = Some pi -> nth x (nth 0 q' []) None = Some pi) /\
  (forall l j pi, In (l, j) pos -> nth j (nth l q []) None = Some pi ->
     exists x, nth x (nth 0 q []) None = None /\ nth x (nth 0 q' []) None = Some pi) /\
  (forall x pi, nth x (nth 0 q []) None = None -> nth x (nth 0 q' []) None = Some pi ->
     exists l j, In (l, j) pos /\ nth j (nth l q []) None = Some pi) /\
  (forall pi p, procs !! pi = Some p ->
     ((exists l j, In (l, j) pos /\ nth j (nth l q []) None = Some pi) ->
        exists x, procs' !! pi = Some (set_mlfq p (mkInfo 0 (Z.of_nat x) 0 (start (mlfq p)))) /\
                  nth x (nth 0 q' []) None = Some pi) /\
     (~ (exists l j, In (l, j) pos /\ nth j (nth l q []) None = Some pi) -> procs' !! pi = Some p)) /\
  length q' = length q /\ (forall l, length (nth l q' []) = length (nth l q [])) /\
  length procs' = length procs.
Proof.
  induction pos as [|[l j] pos IH]; intros procs q top procs' q' ND Bd Hq H0 Hpi Hb.
  { simpl in Hb. injection Hb as <- <-.
    split; [intros ? ? []|]. split; [reflexivity|]. split; [auto|]. split; [intros ? ? ? []|].
    split; [intros x pi E1 E2; congruence|].
    split; [|split; [reflexivity|split; reflexivity]].
    intros pi p Hp. split; [intros (? & ? & [] & _)|intros _; exact Hp]. }
  apply NoDup_cons in ND as [Nin0 ND].
  assert (Nin : ~ In (l, j) pos) by (intros H; apply Nin0; apply list_elem_of_In; exact H).
  destruct (Bd l j (or_introl eq_refl)) as (Hl0 & Hl & Hj).
  assert (Bd' : forall l' j', In (l', j') pos -> l' <> 0%nat /\ (l' < length q)%nat /\ (j' < length (nth l' q []))%nat)
    by (intros l' j' H; apply Bd; right; exact H).
  simpl in Hb. destruct (nth j (nth l q []) None) as [pi|] eqn:El.
  2: { destruct (IH procs q top procs' q' ND Bd' Hq H0 Hpi Hb) as (A & B & C & D & E & F & G).
       split; [intros l' j' [Eq|Hin]; [injection Eq as <- <-; rewrite B; [exact El|exact Hl0|exact Nin]|exact (A l' j' Hin)]|].
       split; [intros l' j' Hl' Hin; apply B; [exact Hl'|intros H; apply Hin; right; exact H]|].
       split; [exact C|].
       split; [intros l' j' pi [Eq|Hin] Hs; [injection Eq as <- <-; congruence|exact (D l' j' pi Hin Hs)]|].
       split; [intros x pi E1 E2; destruct (E x pi E1 E2) as (l' & j' & Hin & Hs); exists l', j'; split; [right; exact Hin|exact Hs]|].
       split; [|exact G].
       intros pi p Hp. destruct (F pi p Hp) as [F1 F2]. split.
       - intros (l' & j' & [Eq|Hin] & Hs); [injection Eq as <- <-; congruence|]. apply F1. eauto.
       - intros Hn. apply F2. intros (l' & j' & Hin & Hs). apply Hn. exists l', j'. split; [right; exact Hin|exact Hs]. }
  destruct (boost_top (nth 0 q []) top (nproc cfg - top)) as [t|] eqn:Bt; [|discriminate].
  destruct (boost_top_some _ _ _ _ Bt) as (Ht & Et & _).
  assert (Htn : (t < nproc cfg)%nat) by lia.
  set (q1 := set2 (set2 q 0 t (Some pi)) l j None) in Hb.
  set (procs1 := <[pi := set_mlfq (nth pi procs dummy_proc)
                     (mkInfo 0 (Z.of_nat t) 0 (start (mlfq (nth pi procs dummy_proc))))]> procs) in Hb.
  assert (Hpi0 : (pi < length procs)%nat) by exact (Hpi _ _ _ El).
  assert (Q1 : forall l' j', nth j' (nth l' q1 []) None =
     if decide (l' = l /\ j' = j) then None
     else if decide (l' = 0%nat /\ j' = t) then Some pi else nth j' (nth l' q []) None).
  { intros l' j'. unfold q1. rewrite entry_set2; [|rewrite length_set2; exact Hl|rewrite length_nth_set2; exact Hj].
    destruct (decide _); [reflexivity|]. apply entry_set2; lia. }
  assert (LQ1 : length q1 = length q) by (unfold q1; rewrite !length_set2; reflexivity).
  assert (LN1 : forall l', length (nth l' q1 []) = length (nth l' q [])) by (intros l'; unfold q1; rewrite !length_nth_set2; reflexivity).
  assert (LP1 : length procs1 = length procs) by (unfold procs1; apply length_insert).
  destruct (IH procs1 q1 t procs' q' ND) as (A & B & C & D & E & F & G).
  { intros l' j' Hin. rewrite LQ1, LN1. apply Bd'. exact Hin. }
  { lia. }
  { rewrite LN1. exact H0. }
  { intros l' j' pi'. rewrite Q1, LP1. destruct (decide _); [discriminate|]. destruct (decide _); [congruence|]. apply Hpi. }
  { exact Hb. }
  assert (Q1lj : nth j (nth l q1 []) None = None) by (rewrite Q1, decide_True by auto; reflexivity).
  assert (Q1t : nth t (nth 0 q1 []) None = Some pi) by (rewrite Q1, decide_False, decide_True by (auto || lia); reflexivity).
  assert (Q1o : forall l' j', In (l', j') pos -> nth j' (nth l' q1 []) None = nth j' (nth l' q []) None).
  { intros l' j' Hin. rewrite Q1. rewrite decide_False by (intros [-> ->]; contradiction).
    rewrite decide_False by (intros [-> _]; exact (proj1 (Bd' _ _ Hin) eq_refl)). reflexivity. }
  assert (Q0 : forall x, x <> t -> nth x (nth 0 q1 []) None = nth x (nth 0 q []) None).
  { intros x Hx. rewrite Q1. rewrite decide_False by (intros [E' _]; congruence).
    rewrite decide_False by (intros [_ E']; congruence). reflexivity. }
  split.
  { intros l' j' [Eq|Hin]; [injection Eq as <- <-; rewrite B; [exact Q1lj|exact Hl0|exact Nin]|exact (A l' j' Hin)]. }
  split.
  { intros l' j' Hl' Hin. rewrite B by (auto; intros H; apply Hin; right; exact H). rewrite Q1.
    rewrite decide_False by (intros [-> ->]; apply Hin; left; reflexivity).
    rewrite decide_False by (intros [-> _]; congruence). reflexivity. }
  split.
  { intros x pi' Ex. apply C. rewrite Q0; [exact Ex|]. intros ->. congruence. }
  split.
  { intros l' j' pi' [Eq|Hin] Hs.
    - injection Eq as <- <-. rewrite El in Hs. injection Hs as <-. exists t. split; [exact Et|]. apply C. exact Q1t.
    - rewrite <- (Q1o _ _ Hin) in Hs. destruct (D l' j' pi' Hin Hs) as (x & X1 & X2).
      exists x. assert (x <> t) by (intros ->; congruence). rewrite <- Q0 by assumption. auto. }
  split.
  { intros x pi' X1 X2. destruct (decide (x = t)) as [->|Hx].
    - rewrite (C _ _ Q1t) in X2. injection X2 as <-. exists l, j. split; [left; reflexivity|exact El].
    - rewrite <- (Q0 x Hx) in X1. destruct (E x pi' X1 X2) as (l' & j' & Hin & Hs).
      exists l', j'. split; [right; exact Hin|]. rewrite <- (Q1o _ _ Hin). exact Hs. }
  split; [|destruct G as (G1 & G2 & G3); split; [lia|split; [intros l'; rewrite G2; apply LN1|lia]]].
  intros pi' p Hp.
  assert (Inpos : forall l' j', In (l', j') pos -> nth j' (nth l' q1 []) None = Some pi' ->
            nth j' (nth l' q []) None = Some pi') by (intros l' j' Hin; rewrite (Q1o _ _ Hin); auto).
  assert (Hp1 : exists p1, procs1 !! pi' = Some p1 /\
                   forall x, set_mlfq p1 (mkInfo 0 (Z.of_nat x) 0 (start (mlfq p1))) =
                             set_mlfq p (mkInfo 0 (Z.of_nat x) 0 (start (mlfq p)))).
  { unfold procs1. destruct (decide (pi' = pi)) as [->|Hne].
    - eexists. split; [apply (lookup_set_mlfq_start _ _ _ t Hp)|]. intros x. reflexivity.
    - exists p. split; [rewrite list_lookup_insert_ne by congruence; exact Hp|reflexivity]. }
  destruct Hp1 as (p1 & Hp1 & Ep1).
  split.
  - intros (l0 & j0 & Hin0 & Hs0).
    destruct (Exists_dec (fun '(l', j') => nth j' (nth l' q1 []) None = Some pi') pos) as [Ex|Nx].
    + apply Exists_exists in Ex as ([l' j'] & Hin & Hs). apply list_elem_of_In in Hin.
      destruct (proj1 (F pi' p1 Hp1) ltac:(exists l', j'; auto)) as (x & X1 & X2).
      exists x. rewrite X1, Ep1. auto.
    + assert (pi' = pi) as ->.
      { destruct Hin0 as [Eq|Hin0]; [injection Eq as <- <-; congruence|].
        exfalso. apply Nx. apply Exists_exists. exists (l0, j0). split; [apply list_elem_of_In; exact Hin0|]. rewrite Q1o by exact Hin0. exact Hs0. }
      exists t. split; [|apply C; exact Q1t].
      rewrite (proj2 (F pi p1 Hp1)); [unfold procs1 in Hp1; rewrite (lookup_set_mlfq_start _ _ _ t Hp) in Hp1; congruence|].
      intros (l' & j' & Hin & Hs). apply Nx. apply Exists_exists. exists (l', j'). split; [apply list_elem_of_In; exact Hin|exact Hs].
  - intros Nx. assert (pi' <> pi) by (intros ->; apply Nx; exists l, j; split; [left; reflexivity|exact El]).
    rewrite (proj2 (F pi' p ltac:(unfold procs1; rewrite list_lookup_insert_ne by congruence; exact Hp))).
    + reflexivity.
    + intros (l' & j' & Hin & Hs). apply Nx. exists l', j'. split; [right; exact Hin|exact (Inpos _ _ Hin Hs)].
Qed.

Lemma count_none_insert (l : list (option nat)) (t x : nat) :
  l !! t = Some None ->
  (length (filter (fun o => o = None) (<[t := Some x]> l)) + 1 = length (filter (fun o => o = None) l))%nat.
Proof.
  revert t. induction l as [|o l IH]; intros [|t] H; simpl in H; try discriminate.
  - injection H as ->. change (<[0%nat := Some x]> (None :: l)) with (Some x :: l).
    rewrite !filter_cons, decide_False by discriminate. rewrite decide_True by reflexivity. cbn [length]. lia.
  - change (<[S t := Some x]> (o :: l)) with (o :: <[t := Some x]> l).
    rewrite !filter_cons. destruct (decide (o = None)); cbn [length]; rewrite <- (IH t H); lia.
Qed.

Lemma count_none_all_some (l : list (option nat)) :
  (forall y, (y < length l)%nat -> nth y l None <> None) -> length (filter (fun o => o = None) l) = 0%nat.
Proof.
  induction l as [|o l IH]; intros H; [reflexivity|]. rewrite filter_cons.
  rewrite decide_False by exact (H 0%nat ltac:(simpl; lia)).
  apply IH. intros y Hy. exact (H (S y) ltac:(simpl; lia)).
Qed.

(** When the loop of [mlfq_boost] finds room for every entry it visits. *)
Lemma boost_loop_some (cfg : config) (pos : list (nat * nat)) :
  forall procs q top,
  NoDup pos ->
  (forall l j, In (l, j) pos -> l <> 0%nat /\ (l < length q)%nat /\ (j < length (nth l q []))%nat) ->
  (0 < length q)%nat -> length (nth 0 q []) = nproc cfg -> (top <= nproc cfg)%nat ->
  (forall y, (y < top)%nat -> nth y (nth 0 q []) None <> None) ->
  (is_Some (boost_loop cfg procs q top pos) <->
   (length (filter is_Some (map (fun '(l, j) => nth j (nth l q []) None) pos)) <=
    length (filter (fun o => o = None) (nth 0 q [])))%nat).
Proof.
  induction pos as [|[l j] pos IH]; intros procs q top ND Bd Hq H0 Htop Hbelow.
  { simpl. split; [lia|intros _; eexists; reflexivity]. }
  apply NoDup_cons in ND as [Nin0 ND].
  assert (Nin : ~ In (l, j) pos) by (intros H; apply Nin0; apply list_elem_of_In; exact H).
  destruct (Bd l j (or_introl eq_refl)) as (Hl0 & Hl & Hj).
  assert (Bd' : forall l' j', In (l', j') pos -> l' <> 0%nat /\ (l' < length q)%nat /\ (j' < length (nth l' q []))%nat)
    by (intros l' j' H; apply Bd; right; exact H).
  cbn [boost_loop map]. rewrite filter_cons.
  destruct (nth j (nth l q []) None) as [pi|] eqn:El.
  2: { rewrite decide_False by (intros [? ?]; discriminate). apply IH; assumption. }
  rewrite decide_True by (eexists; reflexivity). cbn [length].
  destruct (boost_top (nth 0 q []) top (nproc cfg - top)) as [t|] eqn:Bt.
  - destruct (boost_top_some _ _ _ _ Bt) as (Ht & Et & Hmid).
    assert (Htn : (t < nproc cfg)%nat) by lia.
    set (q1 := set2 (set2 q 0 t (Some pi)) l j None).
    assert (L0 : nth 0 q1 [] = <[t := Some pi]> (nth 0 q [])).
    { unfold q1. rewrite nth_set2, decide_False by congruence. rewrite nth_set2, decide_True by reflexivity. reflexivity. }
    assert (Q1o : forall l' j', In (l', j') pos -> nth j' (nth l' q1 []) None = nth j' (nth l' q []) None).
    { intros l' j' Hin. unfold q1.
      rewrite entry_set2; [|rewrite length_set2; exact Hl|rewrite length_nth_set2; exact Hj].
      rewrite decide_False by (intros [-> ->]; contradiction).
      rewrite entry_set2 by lia. rewrite decide_False by (intros [-> _]; exact (proj1 (Bd' _ _ Hin) eq_refl)).
      reflexivity. }
    assert (Hmap : map (fun '(l', j') => nth j' (nth l' q1 []) None) pos =
                   map (fun '(l', j') => nth j' (nth l' q []) None) pos).
    { apply map_ext_in. intros [l' j'] Hin. apply Q1o. exact Hin. }
    assert (Cnt : (length (filter (fun o => o = None) (nth 0 q1 [])) + 1 =
                   length (filter (fun o => o = None) (nth 0 q [])))%nat).
    { rewrite L0. apply count_none_insert. rewrite <- Et. apply nth_lookup_len. lia. }
    rewrite <- Cnt, <- Hmap. rewrite (IH _ q1 t ND).
    + lia.
    + intros l' j' Hin. unfold q1. rewrite !length_set2, !length_nth_set2. apply Bd'. exact Hin.
    + unfold q1. rewrite !length_set2. exact Hq.
    + rewrite L0, length_insert. exact H0.
    + lia.
    + intros y Hy. rewrite L0. destruct (decide (y = t)) as [->|Hne]; [lia|].
      rewrite nth_insert_ne by congruence. destruct (decide (y < top)%nat); [apply Hbelow; lia|apply Hmid; lia].
  - pose proof (boost_top_none _ _ _ Bt) as Hall.
    rewrite count_none_all_some.
    + split; [intros [x Hx]; discriminate|lia].
    + intros y Hy. rewrite H0 in Hy. destruct (decide (y < top)%nat); [apply Hbelow; lia|apply Hall; lia].
Qed.

Lemma slot_nth (m : Mlfq.t) (l j : nat) : slot m l j = nth j (nth l (Mlfq.queue m) []) None.
Proof. unfold slot. rewrite (nth_lookup (nth l (Mlfq.queue m) []) j None). destruct (nth l (Mlfq.queue m) [] !! j) as [[pi|]|]; reflexivity. Qed.

Lemma slot_some_bounds (m : Mlfq.t) (l j pi : nat) :
  slot m l j = Some pi -> (l < length (Mlfq.queue m))%nat /\ (j < length (nth l (Mlfq.queue m) []))%nat.
Proof.
  unfold slot. intros H. destruct (decide (l < length (Mlfq.queue m))%nat) as [Hl|Hl].
  - split; [exact Hl|]. destruct (nth l (Mlfq.queue m) [] !! j) as [o|] eqn:E; [|discriminate].
    eapply lookup_lt_Some; exact E.
  - rewrite nth_overflow in H by lia. discriminate.
Qed.

Lemma NoDup_map_pair (a : nat) (l : list nat) : NoDup l -> NoDup (map (fun j => (a, j)) l).
Proof.
  induction 1 as [|x l Hx ND IH]; simpl; constructor; [|exact IH].
  intros H. apply list_elem_of_In, in_map_iff in H as (y & E & Hy). injection E as ->.
  apply Hx. apply list_elem_of_In. exact Hy.
Qed.

Lemma boost_positions_eq (cfg : config) :
  boost_positions cfg = map (fun j => (1%nat, j)) (seq 0 (nproc cfg)) ++ map (fun j => (2%nat, j)) (seq 0 (nproc cfg)).
Proof. unfold boost_positions. simpl. rewrite app_nil_r. reflexivity. Qed.

Lemma boost_positions_in (cfg : config) (l j : nat) :
  In (l, j) (boost_positions cfg) <-> (l = 1%nat \/ l = 2%nat) /\ (j < nproc cfg)%nat.
Proof.
  rewrite boost_positions_eq, in_app_iff, !in_map_iff. split.
  - intros [(y & E & Hy)|(y & E & Hy)]; injection E as <- <-; apply in_seq in Hy; split; lia.
  - intros [[->| ->] Hj]; [left|right]; exists j; (split; [reflexivity|apply in_seq; lia]).
Qed.

Lemma boost_positions_NoDup (cfg : config) : NoDup (boost_positions cfg).
Proof.
  rewrite boost_positions_eq. apply NoDup_app. split; [apply NoDup_map_pair, NoDup_seq|]. split.
  - intros [l j] H1 H2. apply list_elem_of_In, in_map_iff in H1 as (y & E1 & _).
    apply list_elem_of_In, in_map_iff in H2 as (z & E2 & _). congruence.
  - apply NoDup_map_pair, NoDup_seq.
Qed.

Lemma map_nth_seq_id {A} (L : list A) (d : A) : map (fun j => nth j L d) (seq 0 (length L)) = L.
Proof.
  induction L as [|a L IH]; [reflexivity|]. cbn [length seq map]. f_equal.
  rewrite <- seq_shift, map_map. exact IH.
Qed.

(** [mlfq_boost] on a well-formed queue ([NMLFQ] levels of [NPROC]
    entries) succeeds exactly when the processes on the lower levels fit
    in the empty entries of level 0; otherwise it panics. *)
Theorem mlfq_boost_room (cfg : config) (m : Mlfq.t) (procs : list proc) :
  length (Mlfq.queue m) = NMLFQ ->
  (forall l, (l < NMLFQ)%nat -> length (nth l (Mlfq.queue m) []) = nproc cfg) ->
  (is_Some (mlfq_boost cfg m procs) <->
   (length (filter is_Some (nth 1 (Mlfq.queue m) [] ++ nth 2 (Mlfq.queue m) [])) <=
    length (filter (fun o => o = None) (nth 0 (Mlfq.queue m) [])))%nat).
Proof.
  intros Hq Hl. unfold mlfq_boost.
  assert (E : is_Some ((fun '(procs', q') => (procs', set_queue m q')) <$> boost_loop cfg procs (Mlfq.queue m) 0 (boost_positions cfg))
              <-> is_Some (boost_loop cfg procs (Mlfq.queue m) 0 (boost_positions cfg))).
  { destruct (boost_loop _ _ _ _ _) as [[a b]|]; simpl; split; intros [x Hx]; try discriminate; eexists; reflexivity. }
  rewrite E, boost_loop_some.
  - rewrite boost_positions_eq, map_app, !map_map.
    rewrite <- (Hl 1%nat) at 1 by (unfold NMLFQ; lia). rewrite <- (Hl 2%nat) at 1 by (unfold NMLFQ; lia).
    rewrite !map_nth_seq_id. reflexivity.
  - apply boost_positions_NoDup.
  - intros l j Hin. apply boost_positions_in in Hin as [Hl' Hj]. rewrite Hq, Hl by (unfold NMLFQ; lia).
    unfold NMLFQ. lia.
  - rewrite Hq. unfold NMLFQ. lia.
  - apply Hl. unfold NMLFQ. lia.
  - lia.
  - intros y Hy. lia.
Qed.

(** A successful [mlfq_boost] on a well-formed queue whose entries name
    processes of the table: the lower levels become empty, level 0 keeps
    its processes, every process of a lower level takes an empty entry of
    level 0 and every entry filled there comes from a lower level. Each
    moved process gets [level] 0, [elapsed] 0 and the [index] of an entry
    of level 0 that holds it; the other processes and the other fields of
    the MLFQ state are unchanged. *)
Theorem mlfq_boost_moves (cfg : config) (m : Mlfq.t) (procs procs' : list proc) (m' : Mlfq.t) :
  length (Mlfq.queue m) = NMLFQ ->
  (forall l, (l < NMLFQ)%nat -> length (nth l (Mlfq.queue m) []) = nproc cfg) ->
  (forall l j pi, slot m l j = Some pi -> (pi < length procs)%nat) ->
  mlfq_boost cfg m procs = Some (procs', m') ->
  m' = set_queue m (Mlfq.queue m') /\ length (Mlfq.queue m') = NMLFQ /\
  (forall l, (l < NMLFQ)%nat -> length (nth l (Mlfq.queue m') []) = nproc cfg) /\
  (forall l j, (1 <= l)%nat -> slot m' l j = None) /\
  (forall x pi, slot m 0 x = Some pi -> slot m' 0 x = Some pi) /\
  (forall l j pi, (1 <= l)%nat -> slot m l j = Some pi ->
     exists x, slot m 0 x = None /\ slot m' 0 x = Some pi) /\
  (forall x pi, slot m 0 x = None -> slot m' 0 x = Some pi ->
     exists l j, (1 <= l)%nat /\ slot m l j = Some pi) /\
  length procs' = length procs /\
  (forall pi p, procs !! pi = Some p ->
     ((exists l j, (1 <= l)%nat /\ slot m l j = Some pi) ->
        exists x, procs' !! pi = Some (set_mlfq p (mkInfo 0 (Z.of_nat x) 0 (start (mlfq p)))) /\
                  slot m' 0 x = Some pi) /\
     (~ (exists l j, (1 <= l)%nat /\ slot m l j = Some pi) -> procs' !! pi = Some p)).
Proof.
  intros Hq Hl Hpi Hb. unfold mlfq_boost in Hb.
  destruct (boost_loop cfg procs (Mlfq.queue m) 0 (boost_positions cfg)) as [[procs1 q']|] eqn:B;
    [|discriminate]. simpl in Hb. injection Hb as <- <-.
  destruct (boost_loop_spec cfg (boost_positions cfg) procs (Mlfq.queue m) 0 procs1 q'
              (boost_positions_NoDup cfg)) as (A & Bo & C & D & E & F & G1 & G2 & G3).
  { intros l j Hin. apply boost_positions_in in Hin as [Hl' Hj]. rewrite Hq, Hl by (unfold NMLFQ; lia).
    unfold NMLFQ. lia. }
  { rewrite Hq. unfold NMLFQ. lia. }
  { apply Hl. unfold NMLFQ. lia. }
  { intros l j pi Hs. apply (Hpi l j pi). rewrite slot_nth. exact Hs. }
  { exact B. }
  (* a lower entry holding a process is a visited position *)
  assert (Low : forall l j pi, (1 <= l)%nat -> slot m l j = Some pi ->
            In (l, j) (boost_positions cfg) /\ nth j (nth l (Mlfq.queue m) []) None = Some pi).
  { intros l j pi H1 Hs. destruct (slot_some_bounds _ _ _ _ Hs) as [B1 B2].
    rewrite Hq in B1. rewrite Hl in B2 by exact B1. split; [|rewrite <- slot_nth; exact Hs].
    apply boost_positions_in. unfold NMLFQ in B1. split; lia. }
  assert (LowIff : forall pi, (exists l j, (1 <= l)%nat /\ slot m l j = Some pi) <->
            (exists l j, In (l, j) (boost_positions cfg) /\ nth j (nth l (Mlfq.queue m) []) None = Some pi)).
  { intros pi. split.
    - intros (l & j & H1 & Hs). exists l, j. apply (Low l j pi H1 Hs).
    - intros (l & j & Hin & Hs). exists l, j. apply boost_positions_in in Hin. split; [lia|].
      rewrite slot_nth. exact Hs. }
  cbn [Mlfq.queue set_queue]. split; [reflexivity|]. split; [rewrite G1; exact Hq|].
  split; [intros l Hl'; rewrite G2; apply Hl; exact Hl'|].
  split.
  { intros l j H1. rewrite slot_nth. cbn [Mlfq.queue set_queue].
    destruct (decide (l < NMLFQ)%nat) as [Hl3|Hl3]; [|assert (Eo : nth l q' [] = []) by (apply nth_overflow; rewrite G1, Hq; lia); rewrite Eo; destruct j; reflexivity].
    destruct (decide (j < nproc cfg)%nat) as [Hj|Hj].
    - apply A. apply boost_positions_in. unfold NMLFQ in Hl3. split; lia.
    - apply nth_overflow. rewrite G2, Hl by exact Hl3. lia. }
  split.
  { intros x pi Hs. rewrite slot_nth in *. cbn [Mlfq.queue set_queue]. apply C. exact Hs. }
  split.
  { intros l j pi H1 Hs. destruct (Low l j pi H1 Hs) as [Hin Hs'].
    destruct (D l j pi Hin Hs') as (x & X1 & X2). exists x. rewrite !slot_nth. auto. }
  split.
  { intros x pi X1 X2. rewrite slot_nth in X1, X2. destruct (E x pi X1 X2) as (l & j & Hin & Hs).
    apply LowIff. exists l, j. auto. }
  split; [exact G3|].
  intros pi p Hp. destruct (F pi p Hp) as [F1 F2]. split.
  - intros Hx. destruct (F1 (proj1 (LowIff pi) Hx)) as (x & X1 & X2). exists x. rewrite slot_nth. auto.
  - intros Hn. apply F2. intros Hx. apply Hn. apply LowIff. exact Hx.
Qed.

(** ** The selection step of mlfq_scheduler *)

Lemma stride_next_loop_res (procs : list proc) (ps : list Q) :
  forall (qs : list pref) (i mi : nat) (mp : Q) (ti : Z) (k : nat) (ti' : Z),
  stride_next_loop procs ps qs i mi mp ti = Some (k, ti') ->
  (k = mi /\ ti' = ti) \/
  (exists n p, (i <= k)%nat /\ qs !! (k - i)%nat = Some (PROC n) /\ procs !! n = Some p /\
     ti' = runnable p /\ runnable p <> -1).
Proof.
  induction ps as [|x ps IH]; intros qs i mi mp ti k ti' H.
  { simpl in H. injection H as <- <-. left. auto. }
  destruct qs as [|r qs]; [simpl in H; injection H as <- <-; left; auto|].
  cbn [stride_next_loop] in H.
  assert (Shift : forall k', (S i <= k')%nat -> (r :: qs) !! (k' - i)%nat = qs !! (k' - S i)%nat).
  { intros k' Hk. replace (k' - i)%nat with (S (k' - S i)) by lia. reflexivity. }
  destruct (negb (Qeq_bool x (-1)) && Qltb x mp).
  - destruct (runnable_ref procs r) as [v|] eqn:Rr; [|discriminate].
    destruct r as [| |n]; try discriminate. cbn [runnable_ref] in Rr.
    destruct (procs !! n) as [p|] eqn:Pn; [|discriminate]. injection Rr as <-.
    destruct (runnable p =? -1) eqn:E.
    + destruct (IH qs (S i) mi mp ti k ti' H) as [Hm|(n' & p' & Hk & Q & P & T & R)]; [left; exact Hm|].
      right. exists n', p'. rewrite Shift by lia. repeat split; auto; lia.
    + apply Z.eqb_neq in E.
      destruct (IH qs (S i) i x (runnable p) k ti' H) as [(-> & ->)|(n' & p' & Hk & Q & P & T & R)].
      * right. exists n, p. rewrite Nat.sub_diag. repeat split; auto.
      * right. exists n', p'. rewrite Shift by lia. repeat split; auto; lia.
  - destruct (IH qs (S i) mi mp ti k ti' H) as [Hm|(n' & p' & Hk & Q & P & T & R)]; [left; exact Hm|].
    right. exists n', p'. rewrite Shift by lia. repeat split; auto; lia.
Qed.

Lemma stride_next_res (s : Stride.t) (procs : list proc) (ti : Z) (k : nat) (ti' : Z) :
  stride_next s procs ti = Some (k, ti') ->
  (k = 0%nat /\ ti' = ti) \/
  (exists n p, Stride.queue s !! k = Some (PROC n) /\ procs !! n = Some p /\
     ti' = runnable p /\ runnable p <> -1).
Proof.
  unfold stride_next. destruct (Stride.pass s) as [|p0 ps]; [intros H; injection H as <- <-; left; auto|].
  destruct (Stride.queue s) as [|r0 qs]; [intros H; injection H as <- <-; left; auto|].
  intros H. destruct (stride_next_loop_res procs ps qs 1 0 p0 ti k ti' H) as [Hm|(n & p & Hk & Q & P & T & R)];
    [left; exact Hm|].
  right. exists n, p. split; [|auto]. destruct k as [|k]; [lia|]. rewrite Nat.sub_1_r in Q. exact Q.
Qed.

Lemma scan_level_res (cfg : config) (procs : list proc) (q : list (option nat)) (stop : nat) :
  forall fuel it flag j pi idx,
  scan_level cfg procs q stop it flag fuel = Some (j, pi, idx) ->
  idx = runnable_at procs pi /\ idx <> -1.
Proof.
  induction fuel as [|f IH]; intros it flag j pi idx H; [discriminate|].
  rewrite scan_level_S in H. destruct (flag || negb (Nat.eqb it stop)); [|discriminate].
  cbv zeta in H. destruct (nth _ q None) as [pi'|].
  - destruct (runnable_at procs pi' =? -1) eqn:E; [exact (IH _ _ _ _ _ H)|].
    injection H as _ <- <-. apply Z.eqb_neq in E. auto.
  - exact (IH _ _ _ _ _ H).
Qed.

Lemma mlfq_next_levels_res (cfg : config) (procs : list proc) (m : Mlfq.t) :
  forall lv pi idx m1, mlfq_next_levels cfg procs m lv = (Some (pi, idx), m1) ->
  idx = runnable_at procs pi /\ idx <> -1.
Proof.
  induction lv as [|i lv IH]; intros pi idx m1 H; cbn [mlfq_next_levels] in H; [discriminate|].
  destruct (scan_level _ _ _ _ _ _ _) as [[[j pi'] idx']|] eqn:S.
  - injection H as <- <- _. exact (scan_level_res _ _ _ _ _ _ _ _ _ _ S).
  - exact (IH _ _ _ H).
Qed.

Lemma runnable_at_some (procs : list proc) (pi : nat) :
  runnable_at procs pi <> -1 -> exists p, procs !! pi = Some p /\ runnable_at procs pi = runnable p.
Proof.
  unfold runnable_at. destruct (procs !! pi) as [p|]; [intros _; exists p; auto|congruence].
Qed.

Lemma dispatch_insert (procs : list proc) (pi : nat) (p p1 : proc) (t : thread) :
  procs !! pi = Some p -> threads p1 !! Z.to_nat (tidx p1) = Some t ->
  dispatch (<[pi := p1]> procs) pi =
  <[pi := set_threads p1 (<[Z.to_nat (tidx p1) := set_tstate t RUNNING]> (threads p1))]> procs.
Proof.
  intros Hp Ht. unfold dispatch.
  rewrite (nth_lookup_Some _ _ _ _ (list_lookup_insert_eq procs pi p1 ltac:(eapply lookup_lt_Some; exact Hp))).
  rewrite list_insert_insert_eq. unfold upd_thread. rewrite (nth_lookup_Some _ _ _ _ Ht). reflexivity.
Qed.

(** When a pass of [mlfq_scheduler] dispatches a process [pi], the thread
    it marks RUNNING was RUNNABLE. When it picked a new process (the
    previous pass asked for one, or the current thread is no longer
    RUNNABLE) the thread is the first RUNNABLE one of [pi] ([runnable]) and
    becomes its [tidx] and the new [idx]; otherwise the current process
    keeps running its current thread. Only the entry [pi] of the process
    table changes. This assumes slot 0 of the stride queue is the MLFQ
    scheduler itself and a current process is in the table. *)
Theorem sched_pick_run (cfg : config) (m : Mlfq.t) (procs : list proc) (keep : Z) (cur : option nat)
    (idx : Z) (pi : nat) (m' : Mlfq.t) (procs' : list proc) (idx' : Z) :
  nth 0 (Stride.queue (Mlfq.metasched m)) PNULL = MLFQ_PROC ->
  (forall c, cur = Some c -> (c < length procs)%nat) ->
  sched_pick cfg m procs keep cur idx = (PickRun pi, m', procs', idx') ->
  exists p ti t, procs !! pi = Some p /\ threads p !! ti = Some t /\ tstate t = RUNNABLE /\
    ((runnable p = Z.of_nat ti /\ idx' = Z.of_nat ti /\
      procs' = <[pi := set_tidx (set_threads p (<[ti := set_tstate t RUNNING]> (threads p))) (Z.of_nat ti)]> procs) \/
     (keep <> MLFQ_NEXT /\ cur = Some pi /\ ti = Z.to_nat (tidx p) /\ idx' = idx /\
      procs' = <[pi := set_threads p (<[ti := set_tstate t RUNNING]> (threads p))]> procs)).
Proof.
  intros H0 Hcur H. unfold sched_pick in H.
  (* the reselection path *)
  assert (Resel : match stride_next (Mlfq.metasched m) procs idx with
      | None => (PickFault, m, procs, idx)
      | Some (k, idx1) =>
          let '(chosen, m1, idx2) :=
            match nth k (Stride.queue (Mlfq.metasched m)) PNULL with
            | MLFQ_PROC =>
                match mlfq_next cfg m procs with
                | (Some (pi, i2), m1) => (Some pi, m1, i2)
                | (None, m1) => (None, m1, idx1)
                end
            | PROC pi => (Some pi, m, idx1)
            | PNULL => (None, m, idx1)
            end in
          match chosen with
          | None =>
              (PickIdle, set_metasched m1 (stride_update cfg (Mlfq.metasched m1) procs MLFQ_PROC), procs, idx2)
          | Some pi =>
              (PickRun pi, m1, dispatch (<[pi := set_tidx (nth pi procs dummy_proc) idx2]> procs) pi, idx2)
          end
      end = (PickRun pi, m', procs', idx') ->
    exists p ti t, procs !! pi = Some p /\ threads p !! ti = Some t /\ tstate t = RUNNABLE /\
      runnable p = Z.of_nat ti /\ idx' = Z.of_nat ti /\
      procs' = <[pi := set_tidx (set_threads p (<[ti := set_tstate t RUNNING]> (threads p))) (Z.of_nat ti)]> procs).
  { intros Hs. destruct (stride_next (Mlfq.metasched m) procs idx) as [[k idx1]|] eqn:SN; [|discriminate].
    assert (Hch : exists p, procs !! pi = Some p /\ idx' = runnable p /\ runnable p <> -1 /\
                            procs' = dispatch (<[pi := set_tidx p idx']> procs) pi).
    { destruct (stride_next_res _ _ _ _ _ SN) as [(-> & ->)|(n & p & Q & P & T & R)].
      - rewrite H0 in Hs. destruct (mlfq_next cfg m procs) as [[[pi' i2]|] m1] eqn:MN; [|discriminate].
        cbv beta iota in Hs. injection Hs as <- <- <- <-.
        destruct (mlfq_next_levels_res cfg procs m _ _ _ _ MN) as [E R].
        destruct (runnable_at_some procs pi' ltac:(congruence)) as (p & P & E').
        exists p. rewrite (nth_lookup_Some _ _ _ _ P). split; [exact P|]. split; [congruence|].
        split; [congruence|reflexivity].
      - rewrite (nth_lookup_Some _ _ _ _ Q) in Hs. cbv beta iota in Hs. injection Hs as <- <- <- <-.
        exists p. rewrite (nth_lookup_Some _ _ _ _ P). auto. }
    destruct Hch as (p & P & -> & R & ->).
    destruct (runnable_some p R) as (t & T & Ts & Rn).
    exists p, (Z.to_nat (runnable p)), t. split; [exact P|]. split; [exact T|]. split; [exact Ts|].
    rewrite Z2Nat.id by exact Rn. split; [reflexivity|]. split; [reflexivity|].
    rewrite (dispatch_insert procs pi p (set_tidx p (runnable p)) t P) by exact T. reflexivity. }
  destruct (keep =? MLFQ_NEXT) eqn:K.
  - destruct (Resel H) as (p & ti & t & A1 & A2 & A3 & A4). exists p, ti, t. auto.
  - destruct cur as [c|]; [|discriminate].
    destruct (nth_lookup_or_length procs c dummy_proc) as [Pc|Pc]; [|pose proof (Hcur c eq_refl); lia].
    set (p := nth c procs dummy_proc) in *.
    destruct (procstate_eqb (tstate (nth (Z.to_nat (tidx p)) (threads p) dummy_thread)) RUNNABLE) eqn:E;
      cbn [negb] in H.
    + injection H as <- <- <- <-. apply procstate_eqb_true in E.
      destruct (nth_lookup_or_length (threads p) (Z.to_nat (tidx p)) dummy_thread) as [T|T];
        [|rewrite nth_overflow in E by lia; discriminate].
      exists p, (Z.to_nat (tidx p)), (nth (Z.to_nat (tidx p)) (threads p) dummy_thread).
      split; [exact Pc|]. split; [exact T|]. split; [exact E|]. right.
      split; [apply Z.eqb_neq; exact K|]. split; [reflexivity|]. split; [reflexivity|]. split; [reflexivity|].
      unfold dispatch. fold p. rewrite <- (list_insert_id procs c p Pc) at 2.
      rewrite list_insert_insert_eq. unfold upd_thread. reflexivity.
    + destruct (Resel H) as (p' & ti & t & A1 & A2 & A3 & A4). exists p', ti, t. auto.
Qed.

(** ** Witnesses of the further properties *)

Lemma lookup_repeat_lt {A} (x : A) (n j : nat) : (j < n)%nat -> repeat x n !! j = Some x.
Proof. revert j. induction n as [|n IH]; intros [|j] H; simpl; try lia; [reflexivity|apply IH; lia]. Qed.

Lemma lookup_repeat_some {A} (x y : A) (n j : nat) : repeat x n !! j = Some y -> y = x.
Proof. intros H. apply (repeat_spec n). apply list_elem_of_In, (list_elem_of_lookup_2 _ j). exact H. Qed.

Lemma tids_zero_unique (ps : list proc) :
  (forall i j p t, ps !! i = Some p -> threads p !! j = Some t -> tid t = 0) -> tids_unique ps.
Proof. intros H i1 j1 p1 t1 i2 j2 p2 t2 H1 T1 _ _ Hz _. exfalso. exact (Hz (H _ _ _ _ H1 T1)). Qed.

Lemma kinit_tids_zero (cfg : config) :
  forall i j p t, ptable (kinit cfg) !! i = Some p -> threads p !! j = Some t -> tid t = 0.
Proof.
  intros i j p t H T. cbn [kinit ptable] in H. apply lookup_repeat_some in H. subst p.
  cbn [fresh_proc threads] in T. apply lookup_repeat_some in T. subst t. reflexivity.
Qed.

Lemma kinit_tids (cfg : config) : tids_unique (ptable (kinit cfg)) /\ tids_below (kinit cfg).
Proof.
  split; [apply tids_zero_unique, kinit_tids_zero|].
  intros i j p t H T. rewrite (kinit_tids_zero cfg i j p t H T). reflexivity.
Qed.

Lemma mlfq_cpu_share_moves_witness :
  0 <= level (mlfq mlfq_proc) < Z.of_nat NMLFQ /\ 0 <= index (mlfq mlfq_proc) < Z.of_nat (nproc xv6_cfg) /\
  exists m', mlfq_cpu_share xv6_cfg mlfq_one 0 mlfq_proc 10 =
               Some (0, m', snd (stride_append xv6_cfg (Mlfq.metasched mlfq_one) 0 mlfq_proc 10)) /\
             slot m' 0 0 = None.
Proof.
  assert (Hl : 0 <= level (mlfq mlfq_proc) < Z.of_nat NMLFQ) by (cbn; unfold NMLFQ; lia).
  assert (Hi : 0 <= index (mlfq mlfq_proc) < Z.of_nat (nproc xv6_cfg)) by (cbn; lia).
  assert (Hr : fst (fst (stride_append xv6_cfg (Mlfq.metasched mlfq_one) 0 mlfq_proc 10)) = 1)
    by (vm_compute; reflexivity).
  split; [exact Hl|]. split; [exact Hi|].
  pose proof (mlfq_cpu_share_moves xv6_cfg mlfq_one 0 mlfq_proc 10 Hl Hi) as H.
  destruct (stride_append xv6_cfg (Mlfq.metasched mlfq_one) 0 mlfq_proc 10) as [[r s'] p'].
  cbn [fst] in Hr. subst r.
  destruct H as [(Hr & _)|(_ & m' & H1 & _ & _ & _ & H5 & _)]; [discriminate|].
  exists m'. split; [exact H1|exact H5].
Defined.

Lemma mlfq_cpu_share_stride_oob_witness :
  level (mlfq ready_proc) = -1 /\
  fst (fst (stride_append xv6_cfg (Mlfq.metasched (mlfq_init xv6_cfg)) 0 ready_proc 10)) = 1 /\
  mlfq_cpu_share xv6_cfg (mlfq_init xv6_cfg) 0 ready_proc 10 = None.
Proof.
  assert (H1 : level (mlfq ready_proc) = -1) by reflexivity.
  assert (H2 : fst (fst (stride_append xv6_cfg (Mlfq.metasched (mlfq_init xv6_cfg)) 0 ready_proc 10)) = 1)
    by (vm_compute; reflexivity).
  split; [exact H1|]. split; [exact H2|].
  exact (mlfq_cpu_share_stride_oob xv6_cfg (mlfq_init xv6_cfg) 0 ready_proc 10 H1 H2).
Defined.

Lemma stride_delete_append_witness :
  stride_append xv6_cfg (stride_init xv6_cfg) 0 ready_proc 10 = (1, stride_ten, ready_proc) /\
  stride_delete stride_ten ready_proc = stride_init xv6_cfg.
Proof.
  assert (Ha : stride_append xv6_cfg (stride_init xv6_cfg) 0 ready_proc 10 = (1, stride_ten, ready_proc))
    by (vm_compute; reflexivity).
  split; [exact Ha|]. apply (stride_delete_append xv6_cfg _ _ 0 ready_proc _ 10 Ha).
  - reflexivity.
  - intros [|j] H; [discriminate|]. cbn [stride_init Stride.queue Stride.pass Stride.ticket] in *.
    cbn [lookup list_lookup] in *.
    assert (Hj : (j < nproc xv6_cfg - 1)%nat) by (apply lookup_lt_Some in H; rewrite repeat_length in H; exact H).
    split; apply lookup_repeat_lt; exact Hj.
  - cbn. lia.
  - cbn. lia.
Defined.

Lemma allocproc_tids_witness :
  tids_unique (ptable (kinit xv6_cfg)) /\ tids_below (kinit xv6_cfg) /\ 0 < nexttid (kinit xv6_cfg) /\
  nexttid (kinit xv6_cfg) < 2 ^ 31 - 1 /\
  tids_unique (ptable (fst (allocproc (kinit xv6_cfg) 4096))) /\ tids_below (fst (allocproc (kinit xv6_cfg) 4096)).
Proof.
  destruct (kinit_tids xv6_cfg) as [Hu Hb].
  assert (Hn : 0 < nexttid (kinit xv6_cfg)) by (cbn; lia).
  assert (Hm : nexttid (kinit xv6_cfg) < 2 ^ 31 - 1) by (cbn; lia).
  split; [exact Hu|]. split; [exact Hb|]. split; [exact Hn|]. split; [exact Hm|].
  destruct (allocproc_tids (kinit xv6_cfg) 4096 Hu Hb Hn Hm) as (U & B & _). split; assumption.
Defined.

Lemma thread_create_result_witness :
  ptable (kinit xv6_cfg) !! 0%nat = Some (fresh_proc xv6_cfg) /\
  length (ustacks (fresh_proc xv6_cfg)) = length (threads (fresh_proc xv6_cfg)) /\
  let '(r, w, k', sz') := thread_create (kinit xv6_cfg) 0 4096 8192 12288 in
  r = 0 /\ w = Some 1 /\ nexttid k' = 2.
Proof.
  assert (Hp : ptable (kinit xv6_cfg) !! 0%nat = Some (fresh_proc xv6_cfg)) by reflexivity.
  assert (Hl : length (ustacks (fresh_proc xv6_cfg)) = length (threads (fresh_proc xv6_cfg))) by reflexivity.
  assert (Hr : fst (fst (fst (thread_create (kinit xv6_cfg) 0 4096 8192 12288))) = 0) by (vm_compute; reflexivity).
  split; [exact Hp|]. split; [exact Hl|].
  pose proof (thread_create_result (kinit xv6_cfg) 0 (fresh_proc xv6_cfg) 4096 8192 12288 Hp Hl) as H.
  destruct (thread_create (kinit xv6_cfg) 0 4096 8192 12288) as [[[r w] k'] sz']. cbn [fst] in Hr. subst r.
  destruct H as [(_ & Hr & _)|(ti & t & p' & _ & _ & _ & Hnt & _ & _ & _ & _ & _ & _ & _ & _ & _ & _ &
                              [(Hr & _)|(_ & Hw & _)])]; [discriminate|discriminate|].
  split; [reflexivity|]. split; [exact Hw|]. rewrite Hnt. reflexivity.
Defined.

Lemma thread_create_tids_witness :
  tids_unique (ptable (kinit xv6_cfg)) /\ tids_below (kinit xv6_cfg) /\ 0 < nexttid (kinit xv6_cfg) /\
  nexttid (kinit xv6_cfg) < 2 ^ 31 - 1 /\
  ptable (kinit xv6_cfg) !! 0%nat = Some (fresh_proc xv6_cfg) /\
  length (ustacks (fresh_proc xv6_cfg)) = length (threads (fresh_proc xv6_cfg)) /\
  match thread_create (kinit xv6_cfg) 0 4096 8192 12288 with
  | (_, _, k', _) => tids_unique (ptable k') /\ tids_below k'
  end.
Proof.
  destruct (kinit_tids xv6_cfg) as [Hu Hb].
  assert (Hn : 0 < nexttid (kinit xv6_cfg)) by (cbn; lia).
  assert (Hp : ptable (kinit xv6_cfg) !! 0%nat = Some (fresh_proc xv6_cfg)) by reflexivity.
  assert (Hl : length (ustacks (fresh_proc xv6_cfg)) = length (threads (fresh_proc xv6_cfg))) by reflexivity.
  assert (Hm : nexttid (kinit xv6_cfg) < 2 ^ 31 - 1) by (cbn; lia).
  do 6 (split; [assumption|]).
  exact (thread_create_tids (kinit xv6_cfg) 0 (fresh_proc xv6_cfg) 4096 8192 12288 Hu Hb Hn Hm Hp Hl).
Defined.

Lemma wait_no_zombie_witness :
  ptable (kinit xv6_cfg) !! 0%nat = Some (fresh_proc xv6_cfg) /\
  (forall j q, ptable (kinit xv6_cfg) !! j = Some q -> parent q = Some 0%nat -> state q <> ZOMBIE) /\
  wait xv6_cfg (kinit xv6_cfg) 0 = Some (WaitFail, kinit xv6_cfg).
Proof.
  assert (Hp : ptable (kinit xv6_cfg) !! 0%nat = Some (fresh_proc xv6_cfg)) by reflexivity.
  assert (Hpar : forall j q, ptable (kinit xv6_cfg) !! j = Some q -> parent q = None).
  { intros j q H. cbn [kinit ptable] in H. apply lookup_repeat_some in H. subst q. reflexivity. }
  assert (Hz : forall j q, ptable (kinit xv6_cfg) !! j = Some q -> parent q = Some 0%nat -> state q <> ZOMBIE).
  { intros j q H E. rewrite (Hpar j q H) in E. discriminate. }
  split; [exact Hp|]. split; [exact Hz|].
  destruct (wait_no_zombie xv6_cfg (kinit xv6_cfg) 0 (fresh_proc xv6_cfg) Hp Hz)
    as [((i & p & Hi & E) & _)|(_ & W)]; [|exact W].
  rewrite (Hpar i p Hi) in E. discriminate.
Defined.

Lemma wait_reap_witness :
  let child := mkProc 7 ZOMBIE 0 0 (mkThread 9 ZOMBIE 0 4096 0 :: repeat fresh_thread 7)
                 (4096 :: repeat 0 7) (8192 :: repeat 0 7) (mkInfo 0 0 0 0) (Some 0%nat) in
  let k := mkK [ready_proc; child] (mlfq_init xv6_cfg) 8 10 in
  (forall j q, (j < 1)%nat -> ptable k !! j = Some q -> parent q = Some 0%nat -> state q <> ZOMBIE) /\
  exists k', wait xv6_cfg k 0 = Some (WaitReaped 7, k').
Proof.
  intros child k.
  assert (Hb : forall j q, (j < 1)%nat -> ptable k !! j = Some q -> parent q = Some 0%nat -> state q <> ZOMBIE).
  { intros [|j] q Hj H; [|lia]. injection H as <-. discriminate. }
  split; [exact Hb|].
  destruct (wait_reap xv6_cfg k 0 1 child eq_refl eq_refl eq_refl Hb eq_refl eq_refl eq_refl)
    as (p' & W & _).
  rewrite W. destruct (mlfq_delete xv6_cfg (kmlfq k) child) as [m1|] eqn:D.
  - eexists. reflexivity.
  - exfalso. vm_compute in D. discriminate.
Defined.

Lemma next_thread_spec_witness :
  let cfg := mkConfig 64 2 100 80 1000 100 in
  let p := mkProc 3 RUNNABLE 0 0 [mkThread 5 RUNNING 0 4096 0; mkThread 6 RUNNABLE 0 8192 0]
             [4096; 8192] [0; 0] (mkInfo 0 0 0 0) None in
  exists p', next_thread cfg p = Some (NTSwitch 1, p') /\ tidx p' = 1.
Proof.
  intros cfg p.
  destruct (next_thread_spec cfg p 0 (mkThread 5 RUNNING 0 4096 0) eq_refl ltac:(cbn; lia) eq_refl eq_refl)
    as [(pre & j & post & tj & E & _ & _ & _ & N)|(Hn & _)].
  - cbn in E. destruct pre as [|x pre]; cbn in E; [|destruct pre; discriminate].
    injection E as <- _. eexists. split; [exact N|reflexivity].
  - exfalso. exact (Hn 1%nat (mkThread 6 RUNNABLE 0 8192 0) ltac:(lia) eq_refl eq_refl).
Defined.

Lemma slot_bound (m : Mlfq.t) (n : nat) :
  forallb (forallb (fun o => match o with Some pi => Nat.ltb pi n | None => true end)) (Mlfq.queue m) = true ->
  forall l j pi, slot m l j = Some pi -> (pi < n)%nat.
Proof.
  intros H l j pi Hs. rewrite slot_nth in Hs. rewrite forallb_forall in H.
  destruct (Nat.lt_ge_cases l (length (Mlfq.queue m))) as [Hl|Hl];
    [|rewrite (nth_overflow _ _ Hl) in Hs; destruct j; discriminate].
  specialize (H _ (nth_In _ [] Hl)). rewrite forallb_forall in H.
  destruct (Nat.lt_ge_cases j (length (nth l (Mlfq.queue m) []))) as [Hj|Hj];
    [|rewrite (nth_overflow _ _ Hj) in Hs; discriminate].
  specialize (H _ (nth_In _ None Hj)). rewrite Hs in H. apply Nat.ltb_lt. exact H.
Qed.

Lemma boost_sample_wf :
  length (Mlfq.queue boost_sample) = NMLFQ /\
  (forall l, (l < NMLFQ)%nat -> length (nth l (Mlfq.queue boost_sample) []) = nproc xv6_cfg).
Proof.
  split; [reflexivity|]. unfold NMLFQ.
  intros [|[|[|l]]] Hl; [vm_compute; reflexivity|vm_compute; reflexivity|vm_compute; reflexivity|lia].
Qed.

Lemma mlfq_boost_room_witness :
  length (Mlfq.queue boost_sample) = NMLFQ /\
  (forall l, (l < NMLFQ)%nat -> length (nth l (Mlfq.queue boost_sample) []) = nproc xv6_cfg) /\
  is_Some (mlfq_boost xv6_cfg boost_sample [mlfq_proc; mlfq_proc]).
Proof.
  destruct boost_sample_wf as [Hq Hl].
  split; [exact Hq|]. split; [exact Hl|].
  apply (mlfq_boost_room xv6_cfg boost_sample [mlfq_proc; mlfq_proc] Hq Hl).
  apply Nat.leb_le. vm_compute. reflexivity.
Defined.

Lemma mlfq_boost_moves_witness :
  length (Mlfq.queue boost_sample) = NMLFQ /\
  (forall l, (l < NMLFQ)%nat -> length (nth l (Mlfq.queue boost_sample) []) = nproc xv6_cfg) /\
  (forall l j pi, slot boost_sample l j = Some pi -> (pi < length [mlfq_proc; mlfq_proc])%nat) /\
  exists procs' m', mlfq_boost xv6_cfg boost_sample [mlfq_proc; mlfq_proc] = Some (procs', m') /\
    (forall j, slot m' 1 j = None) /\ exists x, slot m' 0 x = Some 1%nat.
Proof.
  destruct boost_sample_wf as [Hq Hl].
  assert (Hb : forall l j pi, slot boost_sample l j = Some pi -> (pi < length [mlfq_proc; mlfq_proc])%nat)
    by (apply slot_bound; vm_compute; reflexivity).
  split; [exact Hq|]. split; [exact Hl|]. split; [exact Hb|].
  destruct (mlfq_boost xv6_cfg boost_sample [mlfq_proc; mlfq_proc]) as [[procs' m']|] eqn:B.
  2: { exfalso. vm_compute in B. discriminate. }
  destruct (mlfq_boost_moves xv6_cfg boost_sample _ procs' m' Hq Hl Hb B)
    as (_ & _ & _ & Low & _ & Moved & _).
  exists procs', m'. split; [reflexivity|]. split; [intros j; apply Low; lia|].
  assert (S : slot boost_sample 1 5 = Some 1%nat) by (vm_compute; reflexivity).
  destruct (Moved 1%nat 5%nat 1%nat ltac:(lia) S) as (x & _ & X). exists x. exact X.
Defined.

Lemma sched_pick_run_witness :
  nth 0 (Stride.queue (Mlfq.metasched mlfq_one)) PNULL = MLFQ_PROC /\
  exists m' procs' idx', sched_pick xv6_cfg mlfq_one [mlfq_proc] MLFQ_NEXT None 0 = (PickRun 0, m', procs', idx') /\
    idx' = 0.
Proof.
  assert (H0 : nth 0 (Stride.queue (Mlfq.metasched mlfq_one)) PNULL = MLFQ_PROC) by reflexivity.
  assert (Hc : forall c, (None : option nat) = Some c -> (c < length [mlfq_proc])%nat) by discriminate.
  assert (Hr : fst (fst (fst (sched_pick xv6_cfg mlfq_one [mlfq_proc] MLFQ_NEXT None 0))) = PickRun 0)
    by (vm_compute; reflexivity).
  split; [exact H0|].
  destruct (sched_pick xv6_cfg mlfq_one [mlfq_proc] MLFQ_NEXT None 0) as [[[r m'] procs'] idx'] eqn:S.
  cbn [fst] in Hr. subst r. exists m', procs', idx'. split; [reflexivity|].
  destruct (sched_pick_run xv6_cfg mlfq_one [mlfq_proc] MLFQ_NEXT None 0 0 m' procs' idx' H0 Hc S)
    as (p & ti & t & P & _ & _ & [(R & I & _)|(K & _)]).
  - injection P as <-. rewrite I, <- R. vm_compute. reflexivity.
  - exfalso. apply K. reflexivity.
Defined.
